(** * The edge list result container of the cuGraph C API

    A shallow embedding of [cpp/src/c_api/edgelist.cpp]: the six accessors
    [cugraph_edgelist_get_*] and the destructor [cugraph_edgelist_free],
    over an explicit model of the host heap (objects reached through raw
    pointers) and of device memory (the buffers the arrays own).

    Dereferencing a pointer that is null, dangling or of another type is
    undefined behaviour in C++; the embedding makes it an outcome of its
    own, [Undefined], so that statements about it can be written down. *)

From stdpp Require Import gmap list fin_maps sorting.

Open Scope Z_scope.

(** ** Data model *)

(** Raw pointers and device addresses are integers; [nullptr] is 0. *)
Definition nullptr : Z := 0.
Definition NULL : Z := 0.

(** Modelled from the spec: the enumeration [cugraph_data_type_id_t] of
    [cugraph_c] is not part of the sources at hand; the spec speaks of "a
    fixed set of primitive numeric kinds", with 32- or 64-bit vertex ids and
    32- or 64-bit weights, and of offsets of "a monotonic integer type". *)
Inductive cugraph_data_type_id_t := INT32 | INT64 | FLOAT32 | FLOAT64 | SIZE_T.

#[global] Instance cugraph_data_type_id_eq_dec : EqDecision cugraph_data_type_id_t.
Proof. solve_decision. Defined.

Definition data_type_sz (t : cugraph_data_type_id_t) : Z :=
  match t with
  | INT32 | FLOAT32 => 4
  | INT64 | FLOAT64 | SIZE_T => 8
  end.

(** A Typed Device Buffer: the element type and the elements. An element
    is kept as the integer its bits encode (for a floating-point type its
    IEEE-754 bit pattern): nothing in this layer computes with elements. *)
Record device_buffer := DeviceBuffer {
  buf_type : cugraph_data_type_id_t;
  buf_elems : list Z
}.

Definition buffer_bytes (b : device_buffer) : Z :=
  data_type_sz (buf_type b) * Z.of_nat (length (buf_elems b)).

(** Modelled from the spec: [cugraph_type_erased_device_array_t] is declared
    in a header that is not part of the sources at hand. A Type-Erased Array
    "owns exactly one Typed Device Buffer" and "exposes element type and
    length without static typing". *)
Record cugraph_type_erased_device_array_t := DeviceArray {
  size_ : Z;
  data_ : Z;
  type_ : cugraph_data_type_id_t
}.

(** Modelled from the spec: a View is a "non-owning tuple (type, length,
    address) borrowed from a live Array". *)
Record cugraph_type_erased_device_array_view_t := DeviceArrayView {
  view_data_ : Z;
  view_size_ : Z;
  view_type_ : cugraph_data_type_id_t
}.

(** [cugraph::c_api::cugraph_edgelist_t]. Its declaration is in
    [c_api/edgelist.hpp], which is not part of the sources at hand; the
    fields are the six that [edgelist.cpp] reads, each a pointer to an
    array (it is compared with [nullptr], [view()] is called through it,
    and it is deleted). *)
Record cugraph_edgelist_t := Edgelist {
  src_ : Z;
  dst_ : Z;
  wgt_ : Z;
  edge_ids_ : Z;
  edge_type_ids_ : Z;
  subgraph_offsets_ : Z
}.

#[global] Instance device_buffer_eq_dec : EqDecision device_buffer.
Proof. solve_decision. Defined.
#[global] Instance device_array_eq_dec : EqDecision cugraph_type_erased_device_array_t.
Proof. solve_decision. Defined.
#[global] Instance device_array_view_eq_dec :
  EqDecision cugraph_type_erased_device_array_view_t.
Proof. solve_decision. Defined.
#[global] Instance edgelist_eq_dec : EqDecision cugraph_edgelist_t.
Proof. solve_decision. Defined.

(** What a host pointer can point to. *)
Inductive object :=
  | OArray (a : cugraph_type_erased_device_array_t)
  | OView (v : cugraph_type_erased_device_array_view_t)
  | OEdgelist (e : cugraph_edgelist_t).

#[global] Instance object_eq_dec : EqDecision object.
Proof. solve_decision. Defined.

(** The machine state: the host heap, device memory, and how many bytes
    the device can hold. *)
Record state := State {
  host : gmap Z object;
  device : gmap Z device_buffer;
  device_capacity : Z
}.

Definition device_used (st : state) : Z :=
  map_fold (λ _ b acc, buffer_bytes b + acc) 0 (device st).

(** ** Programs: state passing with undefined behaviour *)

Inductive outcome (A : Type) :=
  | Done (a : A) (st : state)
  | Undefined.
Arguments Done {A} a st.
Arguments Undefined {A}.

Definition prog (A : Type) : Type := state → outcome A.

Definition ret {A} (a : A) : prog A := λ st, Done a st.

Definition bind {A B} (m : prog A) (k : A → prog B) : prog B :=
  λ st, match m st with
        | Done a st' => k a st'
        | Undefined => Undefined
        end.

Notation "'let*' x ':=' m 'in' k" := (bind m (λ x, k))
  (at level 10, x name, m at level 100, k at level 200, only parsing).
Notation "m ';;' k" := (bind m (λ _, k))
  (at level 100, k at level 200, right associativity, only parsing).

(** Reading through a pointer: defined only for a non-null pointer to a
    live object. *)
Definition deref (st : state) (p : Z) : option object :=
  if decide (p = nullptr) then None else host st !! p.

(** An address that is neither null nor in use. *)
Definition fresh_ptr {V} (m : gmap Z V) : Z :=
  Z.succ (map_fold (λ k _ acc, Z.max k acc) 0 m).

(** [new T{...}] on the host. *)
Definition host_alloc (o : object) (st : state) : Z * state :=
  let p := fresh_ptr (host st) in
  (p, State (<[p := o]> (host st)) (device st) (device_capacity st)).

Definition new_object (o : object) : prog Z :=
  λ st, let '(p, st') := host_alloc o st in Done p st'.

(** [internal_pointer->field]: the container is read through the handle
    after a [reinterpret_cast], with no check of any kind. *)
Definition load_edgelist (internal_pointer : Z) : prog cugraph_edgelist_t :=
  λ st, match deref st internal_pointer with
        | Some (OEdgelist e) => Done e st
        | _ => Undefined
        end.

(** Modelled from the spec: the method [view()] of the array type is not
    part of the sources at hand. "[view()] → View borrowing this Array's
    buffer; O(1); no copy": the array "can mint a non-owning View", and the
    accessors hand it out as a pointer, so the View is a new host object
    holding the array's type, length and device address. *)
Definition array_view (array : Z) : prog Z :=
  λ st, match deref st array with
        | Some (OArray a) =>
            new_object (OView (DeviceArrayView (data_ a) (size_ a) (type_ a))) st
        | _ => Undefined
        end.

(** Modelled from the spec: the destructor of the array type is not part
    of the sources at hand. "[release()] → frees the underlying device
    buffer". As for every [delete] expression, a null operand is a no-op;
    a pointer to anything but a live array is undefined behaviour. *)
Definition delete_array (array : Z) : prog unit :=
  λ st, if decide (array = nullptr) then Done () st
        else match host st !! array with
             | Some (OArray a) =>
                 match device st !! data_ a with
                 | Some _ =>
                     Done () (State (delete array (host st))
                                    (delete (data_ a) (device st))
                                    (device_capacity st))
                 | None => Undefined
                 end
             | _ => Undefined
             end.

(** [delete internal_pointer]: the container has no destructor of its own,
    only its storage is returned. *)
Definition delete_edgelist (internal_pointer : Z) : prog unit :=
  λ st, if decide (internal_pointer = nullptr) then Done () st
        else match host st !! internal_pointer with
             | Some (OEdgelist _) =>
                 Done () (State (delete internal_pointer (host st))
                                (device st) (device_capacity st))
             | _ => Undefined
             end.

(** ** The accessor API, as in [edgelist.cpp]

    An accessor of an optional field reads the field twice, for the test
    and for the call; nothing runs in between, and the embedding reads
    the container once. *)

Definition cugraph_edgelist_get_sources (edgelist : Z) : prog Z :=
  let internal_pointer := edgelist in
  let* e := load_edgelist internal_pointer in
  array_view (src_ e).

Definition cugraph_edgelist_get_destinations (edgelist : Z) : prog Z :=
  let internal_pointer := edgelist in
  let* e := load_edgelist internal_pointer in
  array_view (dst_ e).

Definition cugraph_edgelist_get_edge_weights (edgelist : Z) : prog Z :=
  let internal_pointer := edgelist in
  let* e := load_edgelist internal_pointer in
  if decide (wgt_ e = nullptr) then ret NULL else array_view (wgt_ e).

Definition cugraph_edgelist_get_edge_ids (edgelist : Z) : prog Z :=
  let internal_pointer := edgelist in
  let* e := load_edgelist internal_pointer in
  if decide (edge_ids_ e = nullptr) then ret NULL
  else array_view (edge_ids_ e).

Definition cugraph_edgelist_get_edge_type_ids (edgelist : Z) : prog Z :=
  let internal_pointer := edgelist in
  let* e := load_edgelist internal_pointer in
  if decide (edge_type_ids_ e = nullptr) then ret NULL
  else array_view (edge_type_ids_ e).

Definition cugraph_edgelist_get_edge_offsets (edgelist : Z) : prog Z :=
  let internal_pointer := edgelist in
  let* e := load_edgelist internal_pointer in
  array_view (subgraph_offsets_ e).

(** Each [delete] statement reads its operand through [internal_pointer]
    anew, in the order of the source. *)
Definition cugraph_edgelist_free (edgelist : Z) : prog unit :=
  let internal_pointer := edgelist in
  (let* e := load_edgelist internal_pointer in delete_array (src_ e)) ;;
  (let* e := load_edgelist internal_pointer in delete_array (dst_ e)) ;;
  (let* e := load_edgelist internal_pointer in delete_array (wgt_ e)) ;;
  (let* e := load_edgelist internal_pointer in delete_array (edge_ids_ e)) ;;
  (let* e := load_edgelist internal_pointer in delete_array (edge_type_ids_ e)) ;;
  (let* e := load_edgelist internal_pointer in delete_array (subgraph_offsets_ e)) ;;
  delete_edgelist internal_pointer.

(** The six accessors, indexed by the field they read. *)
Inductive edgelist_field :=
  | Sources | Destinations | EdgeWeights | EdgeIds | EdgeTypeIds | EdgeOffsets.

#[global] Instance edgelist_field_eq_dec : EqDecision edgelist_field.
Proof. solve_decision. Defined.

Definition all_fields : list edgelist_field :=
  [Sources; Destinations; EdgeWeights; EdgeIds; EdgeTypeIds; EdgeOffsets].

Definition field_ptr (f : edgelist_field) (e : cugraph_edgelist_t) : Z :=
  match f with
  | Sources => src_ e
  | Destinations => dst_ e
  | EdgeWeights => wgt_ e
  | EdgeIds => edge_ids_ e
  | EdgeTypeIds => edge_type_ids_ e
  | EdgeOffsets => subgraph_offsets_ e
  end.

Definition is_optional (f : edgelist_field) : bool :=
  match f with
  | EdgeWeights | EdgeIds | EdgeTypeIds => true
  | Sources | Destinations | EdgeOffsets => false
  end.

(** The length the data model gives a field, for [N] edges and [M]
    subgraphs. *)
Definition field_length (f : edgelist_field) (N M : Z) : Z :=
  match f with
  | EdgeOffsets => M + 1
  | _ => N
  end.

Definition getter (f : edgelist_field) : Z → prog Z :=
  match f with
  | Sources => cugraph_edgelist_get_sources
  | Destinations => cugraph_edgelist_get_destinations
  | EdgeWeights => cugraph_edgelist_get_edge_weights
  | EdgeIds => cugraph_edgelist_get_edge_ids
  | EdgeTypeIds => cugraph_edgelist_get_edge_type_ids
  | EdgeOffsets => cugraph_edgelist_get_edge_offsets
  end.

(** Calling accessors one after the other, collecting what they return. *)
Fixpoint run_getters (fs : list edgelist_field) (edgelist : Z) : prog (list Z) :=
  match fs with
  | [] => ret []
  | f :: fs' =>
      let* v := getter f edgelist in
      let* vs := run_getters fs' edgelist in
      ret (v :: vs)
  end.

(** Reading a View handed out by an accessor: its descriptor, and the
    elements it designates on the device. *)
Definition view_at (st : state) (v : Z) : option cugraph_type_erased_device_array_view_t :=
  match deref st v with
  | Some (OView w) => Some w
  | _ => None
  end.

Definition view_elems (st : state) (v : Z) : option (list Z) :=
  match view_at st v with
  | Some w => buf_elems <$> device st !! view_data_ w
  | None => None
  end.

(** ** Well-formed results

    The invariants of the data model, for a container [e] with [N] edges
    and [M] subgraphs in state [st]. *)

(** [p] points to a live array of [n] elements that owns a live device
    buffer of its own type and length. *)
Definition array_ok (st : state) (n : Z) (p : Z) : Prop :=
  match deref st p with
  | Some (OArray a) =>
      match device st !! data_ a with
      | Some b =>
          size_ a = n ∧ Z.of_nat (length (buf_elems b)) = n ∧ buf_type b = type_ a
      | None => False
      end
  | _ => False
  end.

Definition opt_array_ok (st : state) (n : Z) (p : Z) : Prop :=
  if decide (p = nullptr) then True else array_ok st n p.

(** The arrays a container owns, and the device buffers they own. *)
Definition fields_of (e : cugraph_edgelist_t) : list Z :=
  [src_ e; dst_ e; wgt_ e; edge_ids_ e; edge_type_ids_ e; subgraph_offsets_ e].

Definition owned (e : cugraph_edgelist_t) : list Z :=
  filter (λ p, p ≠ nullptr) (fields_of e).

Definition buffer_of (st : state) (p : Z) : option Z :=
  match deref st p with
  | Some (OArray a) => Some (data_ a)
  | _ => None
  end.

Definition owned_buffers (st : state) (e : cugraph_edgelist_t) : list Z :=
  omap (buffer_of st) (fields_of e).

(** The elements of the offsets array. *)
Definition offsets_elems (st : state) (e : cugraph_edgelist_t) : list Z :=
  match buffer_of st (subgraph_offsets_ e) with
  | Some d => default [] (buf_elems <$> device st !! d)
  | None => []
  end.

Record wf_container (st : state) (e : cugraph_edgelist_t) (N M : Z) : Prop := {
  wf_src : array_ok st N (src_ e);
  wf_dst : array_ok st N (dst_ e);
  wf_wgt : opt_array_ok st N (wgt_ e);
  wf_edge_ids : opt_array_ok st N (edge_ids_ e);
  wf_edge_type_ids : opt_array_ok st N (edge_type_ids_ e);
  wf_subgraph_offsets : array_ok st (M + 1) (subgraph_offsets_ e);
  wf_owned_distinct : NoDup (owned e);
  wf_buffers_distinct : NoDup (owned_buffers st e);
  wf_offsets_first : head (offsets_elems st e) = Some 0;
  wf_offsets_last : last (offsets_elems st e) = Some N;
  wf_offsets_sorted : Sorted Z.le (offsets_elems st e)
}.

Definition wf_edgelist (st : state) (edgelist : Z) (N M : Z) : Prop :=
  match deref st edgelist with
  | Some (OEdgelist e) => wf_container st e N M
  | _ => False
  end.

(** A handle nothing can be read through: null, dangling (never allocated
    or already deleted), or pointing to an object of another type. *)
Definition invalid_handle (st : state) (edgelist : Z) : Prop :=
  match deref st edgelist with
  | Some (OEdgelist _) => False
  | _ => True
  end.

(** ** The producer

    Modelled from the spec: the extraction that builds a Result (and the
    device allocator it draws from) is not part of the sources at hand. The
    spec gives its contract: it packs the edges of one or more subgraphs
    into parallel arrays, "with subgraph boundaries encoded purely through
    [subgraph_offsets]", and construction is all-or-nothing: "if the
    producer cannot allocate or populate every mandatory field, no handle is
    returned and any partial allocations already made are released". *)

(** A device allocation fails when the buffer does not fit. *)
Definition device_alloc (b : device_buffer) (st : state) : option (Z * state) :=
  if decide (device_used st + buffer_bytes b ≤ device_capacity st) then
    let d := fresh_ptr (device st) in
    Some (d, State (host st) (<[d := b]> (device st)) (device_capacity st))
  else None.

(** A new array that owns a new device buffer; [None] when the device is
    out of memory, with the state as it was. *)
Definition new_array (b : device_buffer) : prog (option Z) :=
  λ st, match device_alloc b st with
        | Some (d, st1) =>
            let a := DeviceArray (Z.of_nat (length (buf_elems b))) d (buf_type b) in
            let '(p, st2) := host_alloc (OArray a) st1 in
            Done (Some p) st2
        | None => Done None st
        end.

(** An optional field that the graph does not have stays a null pointer. *)
Definition new_opt_array (ob : option device_buffer) : prog (option Z) :=
  match ob with
  | Some b => new_array b
  | None => ret (Some nullptr)
  end.

(** The arrays are made one after the other; when one cannot be made, the
    ones made before it are released on the way out. *)
Fixpoint new_arrays (reqs : list (option device_buffer)) : prog (option (list Z)) :=
  match reqs with
  | [] => ret (Some [])
  | r :: reqs' =>
      let* op := new_opt_array r in
      match op with
      | None => ret None
      | Some p =>
          let* ops := new_arrays reqs' in
          match ops with
          | Some ps => ret (Some (p :: ps))
          | None => delete_array p ;; ret None
          end
      end
  end.

(** The columns of a Result before they are moved to the device. *)
Record edgelist_columns := Columns {
  col_sources : device_buffer;
  col_destinations : device_buffer;
  col_weights : option device_buffer;
  col_edge_ids : option device_buffer;
  col_edge_type_ids : option device_buffer;
  col_offsets : device_buffer
}.

Definition requests (c : edgelist_columns) : list (option device_buffer) :=
  [Some (col_sources c); Some (col_destinations c); col_weights c;
   col_edge_ids c; col_edge_type_ids c; Some (col_offsets c)].

(** The handle is made last, once every array is there; [None] stands for
    the reported failure. *)
Definition make_edgelist (c : edgelist_columns) : prog (option Z) :=
  let* ops := new_arrays (requests c) in
  match ops with
  | Some [src; dst; wgt; ids; tys; offs] =>
      let* h := new_object (OEdgelist (Edgelist src dst wgt ids tys offs)) in
      ret (Some h)
  | _ => ret None
  end.

(** Packing: the edges of the subgraphs, one subgraph after the other, and
    the offsets at which each subgraph starts. *)
Record edge := Edge {
  edge_src : Z;
  edge_dst : Z;
  edge_wgt : Z;
  edge_id : Z;
  edge_type : Z
}.

Record graph_types := GraphTypes {
  vertex_t : cugraph_data_type_id_t;
  weight_t : option cugraph_data_type_id_t;
  edge_id_t : option cugraph_data_type_id_t;
  edge_type_t : option cugraph_data_type_id_t
}.

Fixpoint offsets_from (start : Z) (subgraphs : list (list edge)) : list Z :=
  match subgraphs with
  | [] => [start]
  | g :: subgraphs' =>
      start :: offsets_from (start + Z.of_nat (length g)) subgraphs'
  end.

Definition column (proj : edge → Z) (es : list edge) (t : cugraph_data_type_id_t)
  : device_buffer :=
  DeviceBuffer t (proj <$> es).

Definition pack (ts : graph_types) (subgraphs : list (list edge)) : edgelist_columns :=
  let es := concat subgraphs in
  Columns (column edge_src es (vertex_t ts))
          (column edge_dst es (vertex_t ts))
          (column edge_wgt es <$> weight_t ts)
          (column edge_id es <$> edge_id_t ts)
          (column edge_type es <$> edge_type_t ts)
          (DeviceBuffer SIZE_T (offsets_from 0 subgraphs)).

Definition extract_subgraphs (ts : graph_types) (subgraphs : list (list edge))
  : prog (option Z) :=
  make_edgelist (pack ts subgraphs).

(** The columns have the shape of a Result with [N] edges and [M]
    subgraphs. *)
Definition column_ok (n : Z) (b : device_buffer) : Prop :=
  Z.of_nat (length (buf_elems b)) = n.

Record columns_ok (c : edgelist_columns) (N M : Z) : Prop := {
  cok_sources : column_ok N (col_sources c);
  cok_destinations : column_ok N (col_destinations c);
  cok_weights : from_option (column_ok N) True (col_weights c);
  cok_edge_ids : from_option (column_ok N) True (col_edge_ids c);
  cok_edge_type_ids : from_option (column_ok N) True (col_edge_type_ids c);
  cok_offsets : column_ok (M + 1) (col_offsets c);
  cok_first : head (buf_elems (col_offsets c)) = Some 0;
  cok_last : last (buf_elems (col_offsets c)) = Some N;
  cok_sorted : Sorted Z.le (buf_elems (col_offsets c))
}.

(** The empty machine, with a device of [cap] bytes. *)
Definition init_state (cap : Z) : state := State ∅ ∅ cap.

(** Well-formedness can be checked by computation. *)
#[global] Instance array_ok_dec st n p : Decision (array_ok st n p).
Proof.
  unfold array_ok. destruct (deref st p) as [[a| |]|]; [|apply _..].
  destruct (device st !! data_ a); apply _.
Defined.

#[global] Instance opt_array_ok_dec st n p : Decision (opt_array_ok st n p).
Proof. unfold opt_array_ok. case_decide; apply _. Defined.

#[global] Instance wf_container_dec st e N M : Decision (wf_container st e N M).
Proof.
  destruct (decide
    (array_ok st N (src_ e) ∧ array_ok st N (dst_ e) ∧
     opt_array_ok st N (wgt_ e) ∧ opt_array_ok st N (edge_ids_ e) ∧
     opt_array_ok st N (edge_type_ids_ e) ∧
     array_ok st (M + 1) (subgraph_offsets_ e) ∧
     NoDup (owned e) ∧ NoDup (owned_buffers st e) ∧
     head (offsets_elems st e) = Some 0 ∧
     last (offsets_elems st e) = Some N ∧
     Sorted Z.le (offsets_elems st e))) as [H|H].
  - left. destruct H as (? & ? & ? & ? & ? & ? & ? & ? & ? & ? & ?). by constructor.
  - right. intros []. apply H. by repeat split.
Defined.

#[global] Instance wf_edgelist_dec st h N M : Decision (wf_edgelist st h N M).
Proof. unfold wf_edgelist. destruct (deref st h) as [[]|]; apply _. Defined.

#[global] Instance invalid_handle_dec st h : Decision (invalid_handle st h).
Proof. unfold invalid_handle. destruct (deref st h) as [[]|]; apply _. Defined.

#[global] Instance column_ok_dec n b : Decision (column_ok n b).
Proof. unfold column_ok. apply _. Defined.

#[global] Instance opt_column_ok_dec n ob :
  Decision (from_option (column_ok n) True ob).
Proof. destruct ob; apply _. Defined.

#[global] Instance columns_ok_dec c N M : Decision (columns_ok c N M).
Proof.
  destruct (decide
    (column_ok N (col_sources c) ∧ column_ok N (col_destinations c) ∧
     from_option (column_ok N) True (col_weights c) ∧
     from_option (column_ok N) True (col_edge_ids c) ∧
     from_option (column_ok N) True (col_edge_type_ids c) ∧
     column_ok (M + 1) (col_offsets c) ∧
     head (buf_elems (col_offsets c)) = Some 0 ∧
     last (buf_elems (col_offsets c)) = Some N ∧
     Sorted Z.le (buf_elems (col_offsets c)))) as [H|H].
  - left. destruct H as (? & ? & ? & ? & ? & ? & ? & ? & ?). by constructor.
  - right. intros []. apply H. by repeat split.
Defined.

(** ** Vocabulary of the statements *)

Definition view_of (a : cugraph_type_erased_device_array_t)
  : cugraph_type_erased_device_array_view_t :=
  DeviceArrayView (data_ a) (size_ a) (type_ a).

(** The state after a View of [a] has been handed out. *)
Definition with_view (st : state) (a : cugraph_type_erased_device_array_t) : state :=
  (host_alloc (OView (view_of a)) st).2.

(** [st'] has every object and every buffer of [st], unchanged. *)
Definition preserves (st st' : state) : Prop :=
  (∀ p o, deref st p = Some o → deref st' p = Some o) ∧
  device st' = device st ∧
  device_capacity st' = device_capacity st.

(** [st'] has every object and every buffer of [st], unchanged, and maybe
    more. *)
Definition extends (st st' : state) : Prop :=
  (∀ p o, deref st p = Some o → deref st' p = Some o) ∧
  (∀ d b, device st !! d = Some b → device st' !! d = Some b) ∧
  device_capacity st' = device_capacity st.

(** The destructor is one statement per field, then the container. *)
Definition delete_field (f : edgelist_field) (internal_pointer : Z) : prog unit :=
  let* e := load_edgelist internal_pointer in delete_array (field_ptr f e).

Definition delete_fields (fs : list edgelist_field) (internal_pointer : Z)
  (rest : prog unit) : prog unit :=
  foldr (λ f k, delete_field f internal_pointer ;; k) rest fs.

(** The arrays [ps] can be deleted one after the other: each is null or a
    live array with a live buffer, and no array or buffer occurs twice. *)
Definition releasable (st : state) (ps : list Z) : Prop :=
  Forall (λ p, p = nullptr ∨
               ∃ a, host st !! p = Some (OArray a) ∧ is_Some (device st !! data_ a)) ps ∧
  NoDup (filter (λ p, p ≠ nullptr) ps) ∧
  NoDup (omap (buffer_of st) ps).

(** [st'] is [st] without the host objects [ps] and the device buffers
    [ds], and nothing else has changed. *)
Definition released (ps ds : list Z) (st st' : state) : Prop :=
  (∀ q, host st' !! q = if decide (q ∈ ps) then None else host st !! q) ∧
  (∀ d, device st' !! d = if decide (d ∈ ds) then None else device st !! d) ∧
  device_capacity st' = device_capacity st.

(** The array at [p] in [st'] was made for the request [r] after [st]:
    it is new, it owns a new buffer, and the buffer holds the requested
    column; for a field that was not requested, [p] is null. *)
Definition made (st st' : state) (r : option device_buffer) (p : Z) : Prop :=
  match r with
  | None => p = nullptr
  | Some b =>
      p ≠ nullptr ∧ host st !! p = None ∧
      ∃ d, host st' !! p =
             Some (OArray (DeviceArray (Z.of_nat (length (buf_elems b))) d (buf_type b))) ∧
           device st !! d = None ∧ device st' !! d = Some b
  end.

(** [st'] is [st] with new host objects at [ps] and new buffers at [ds],
    and nothing else has changed. *)
Definition grown (ps ds : list Z) (st st' : state) : Prop :=
  (∀ q, q ∉ ps → host st' !! q = host st !! q) ∧
  (∀ d, d ∉ ds → device st' !! d = device st !! d) ∧
  device_capacity st' = device_capacity st.

(** A call hands out a present View of [n] elements. *)
Definition returns_view (m : prog Z) (st : state) (n : Z) : Prop :=
  ∃ v st' w, m st = Done v st' ∧ v ≠ NULL ∧ view_at st' v = Some w ∧ view_size_ w = n.

(** A call hands out a present View of the elements [l], of type [t]. *)
Definition returns_elems (m : prog Z) (st : state) (t : cugraph_data_type_id_t)
  (l : list Z) : Prop :=
  ∃ v st' w, m st = Done v st' ∧ v ≠ NULL ∧ view_at st' v = Some w ∧
             view_type_ w = t ∧ view_size_ w = Z.of_nat (length l) ∧
             view_elems st' v = Some l.

(** A call hands out the absent-sentinel and changes nothing. *)
Definition returns_absent (m : prog Z) (st : state) : Prop :=
  m st = Done NULL st.

(** What a caller can see of the result of an accessor: nothing when the
    behaviour is undefined, the sentinel, or the View's type, length and
    device address. *)
Inductive observation :=
  | ObsUndefined
  | ObsAbsent
  | ObsView (w : option cugraph_type_erased_device_array_view_t).

Definition observe (o : outcome Z) : observation :=
  match o with
  | Undefined => ObsUndefined
  | Done v st => if decide (v = NULL) then ObsAbsent else ObsView (view_at st v)
  end.

(** What a field of the container designates: nothing (a null pointer),
    a live array, or something that cannot be read. *)
Inductive field_content :=
  | FieldNull
  | FieldArray (a : cugraph_type_erased_device_array_t)
  | FieldDangling.

Definition field_array (st : state) (e : cugraph_edgelist_t) (f : edgelist_field)
  : field_content :=
  if decide (field_ptr f e = nullptr) then FieldNull
  else match deref st (field_ptr f e) with
       | Some (OArray a) => FieldArray a
       | _ => FieldDangling
       end.

(** How many of the three optional fields a container has. *)
Definition present_count (e : cugraph_edgelist_t) : nat :=
  length (filter (λ p, p ≠ nullptr) [wgt_ e; edge_ids_ e; edge_type_ids_ e]).

(** Every operation answers an invalid handle with a defined outcome:
    what the spec asks of the handling of invalid handles. *)
Definition reports_invalid_handles : Prop :=
  ∀ st h, invalid_handle st h →
          cugraph_edgelist_free h st ≠ Undefined ∧
          ∀ f, getter f h st ≠ Undefined.

(** What an accessor lets a caller see, given what its field designates. *)
Definition observation_of (f : edgelist_field) (c : field_content) : observation :=
  match c with
  | FieldNull => if is_optional f then ObsAbsent else ObsUndefined
  | FieldArray a => ObsView (Some (view_of a))
  | FieldDangling => ObsUndefined
  end.

(** Two live containers share no array and no device buffer. *)
Definition separate (st : state) (h1 h2 : Z) : Prop :=
  match deref st h1, deref st h2 with
  | Some (OEdgelist e1), Some (OEdgelist e2) =>
      Forall (λ p, p ∉ owned e2) (owned e1) ∧
      Forall (λ d, d ∉ owned_buffers st e2) (owned_buffers st e1)
  | _, _ => False
  end.

#[global] Instance separate_dec st h1 h2 : Decision (separate st h1 h2).
Proof.
  unfold separate.
  destruct (deref st h1) as [[]|]; try apply _;
    destruct (deref st h2) as [[]|]; apply _.
Defined.

(** ** Scenarios *)

(** The bit patterns of the single-precision numbers 1.0, 2.0 and 3.0. *)
Definition float32_1 : Z := 0x3f800000.
Definition float32_2 : Z := 0x40000000.
Definition float32_3 : Z := 0x40400000.

(** Three edges in one subgraph, with weights, without edge ids and
    without edge types. *)
Definition roundtrip_columns : edgelist_columns :=
  Columns (DeviceBuffer INT32 [0; 1; 2])
          (DeviceBuffer INT32 [1; 2; 0])
          (Some (DeviceBuffer FLOAT32 [float32_1; float32_2; float32_3]))
          None None
          (DeviceBuffer SIZE_T [0; 3]).

(** The state and the handle a construction leaves. *)
Definition constructed (c : edgelist_columns) (st : state) : Z * state :=
  match make_edgelist c st with
  | Done (Some h) st' => (h, st')
  | Done None st' => (NULL, st')
  | Undefined => (NULL, st)
  end.

Definition roundtrip_handle : Z := (constructed roundtrip_columns (init_state 1024)).1.
Definition roundtrip_state : state := (constructed roundtrip_columns (init_state 1024)).2.

(** Two subgraphs, of two and of three edges. *)
Definition two_subgraphs : list (list edge) :=
  [[Edge 0 1 0 0 0; Edge 1 2 0 0 0];
   [Edge 5 6 0 0 0; Edge 6 7 0 0 0; Edge 7 5 0 0 0]].

Definition plain_types : graph_types := GraphTypes INT32 None None None.

(** No edge at all, in one subgraph, but with a (present, empty) weight
    column. *)
Definition empty_weighted_columns : edgelist_columns :=
  Columns (DeviceBuffer INT32 []) (DeviceBuffer INT32 [])
          (Some (DeviceBuffer FLOAT32 [])) None None
          (DeviceBuffer SIZE_T [0; 0]).

Definition empty_weighted_handle : Z :=
  (constructed empty_weighted_columns (init_state 1024)).1.
Definition empty_weighted_state : state :=
  (constructed empty_weighted_columns (init_state 1024)).2.

(** The three-edge result with each of the eight choices of optional
    fields. *)
Definition presence_columns (w i t : bool) : edgelist_columns :=
  Columns (DeviceBuffer INT32 [0; 1; 2])
          (DeviceBuffer INT32 [1; 2; 0])
          (if w then Some (DeviceBuffer FLOAT32 [float32_1; float32_2; float32_3])
           else None)
          (if i then Some (DeviceBuffer INT64 [10; 11; 12]) else None)
          (if t then Some (DeviceBuffer INT32 [7; 7; 8]) else None)
          (DeviceBuffer SIZE_T [0; 3]).

(** The state after the result of the round-trip scenario was freed. *)
Definition freed_state : state :=
  match cugraph_edgelist_free roundtrip_handle roundtrip_state with
  | Done _ st => st
  | Undefined => roundtrip_state
  end.

Definition two_subgraphs_handle : Z :=
  (constructed (pack plain_types two_subgraphs) (init_state 1024)).1.
Definition two_subgraphs_state : state :=
  (constructed (pack plain_types two_subgraphs) (init_state 1024)).2.

(** A container whose sources and destinations are one and the same
    array. *)
Definition aliased_container : cugraph_edgelist_t := Edgelist 1 1 0 0 0 2.

Definition aliased_state : state :=
  State (<[3 := OEdgelist aliased_container]>
           (<[2 := OArray (DeviceArray 2 2 SIZE_T)]>
              (<[1 := OArray (DeviceArray 3 1 INT32)]> ∅)))
        (<[2 := DeviceBuffer SIZE_T [0; 3]]>
           (<[1 := DeviceBuffer INT32 [0; 1; 2]]> ∅))
        1024.

(** Two results that live together: the one of the round-trip scenario
    and, made after it, the one with the empty weight column. *)
Definition second_handle : Z :=
  (constructed empty_weighted_columns roundtrip_state).1.
Definition two_results_state : state :=
  (constructed empty_weighted_columns roundtrip_state).2.

(** * Properties *)

Ltac by_computation := apply (bool_decide_unpack _); vm_compute; exact I.

(** ** Allocation *)

Lemma max_key_bound {V} (m : gmap Z V) :
  let top := map_fold (λ k _ acc, Z.max k acc) 0 m in
  0 ≤ top ∧ ∀ k, is_Some (m !! k) → k ≤ top.
Proof.
  apply (map_fold_weak_ind (λ top m, 0 ≤ top ∧ ∀ k, is_Some (m !! k) → k ≤ top)).
  - split; [lia|]. intros k [x Hx]. by rewrite lookup_empty in Hx.
  - intros i x m' r Hi [Hr Hle]. split; [lia|].
    intros k Hk. destruct (decide (k = i)) as [->|Hne]; [lia|].
    rewrite lookup_insert_ne in Hk by done. specialize (Hle k Hk). lia.
Qed.

Lemma fresh_ptr_nonnull {V} (m : gmap Z V) : fresh_ptr m ≠ nullptr.
Proof.
  unfold fresh_ptr, nullptr. pose proof (max_key_bound m) as [H0 _]. lia.
Qed.

Lemma fresh_ptr_fresh {V} (m : gmap Z V) : m !! fresh_ptr m = None.
Proof.
  destruct (m !! fresh_ptr m) eqn:E; [|done].
  pose proof (max_key_bound m) as [_ Hle].
  specialize (Hle (fresh_ptr m) (mk_is_Some _ _ E)). unfold fresh_ptr in Hle. lia.
Qed.

(** ** Reading through pointers *)

Lemma deref_Some st p o : deref st p = Some o ↔ p ≠ nullptr ∧ host st !! p = Some o.
Proof.
  unfold deref. case_decide as Hp.
  - split; [done | by intros [? _]].
  - split; [by intros ? | by intros [_ ?]].
Qed.

Lemma deref_nullptr st : deref st nullptr = None.
Proof. unfold deref. by case_decide. Qed.

Lemma load_edgelist_live st h e :
  deref st h = Some (OEdgelist e) → load_edgelist h st = Done e st.
Proof. unfold load_edgelist. by intros ->. Qed.

Lemma load_edgelist_invalid st h :
  invalid_handle st h → load_edgelist h st = Undefined.
Proof.
  unfold invalid_handle, load_edgelist.
  destruct (deref st h) as [[]|]; done.
Qed.

Lemma wf_edgelist_live st h N M :
  wf_edgelist st h N M →
  ∃ e, deref st h = Some (OEdgelist e) ∧ wf_container st e N M.
Proof.
  unfold wf_edgelist. destruct (deref st h) as [[]|]; try done. eauto.
Qed.

Lemma array_ok_live st n p :
  array_ok st n p →
  ∃ a b, deref st p = Some (OArray a) ∧ device st !! data_ a = Some b ∧
         size_ a = n ∧ Z.of_nat (length (buf_elems b)) = n ∧ buf_type b = type_ a.
Proof.
  unfold array_ok. destruct (deref st p) as [[a| |]|]; try done.
  destruct (device st !! data_ a) as [b|] eqn:Hb; [|done].
  intros (? & ? & ?). by exists a, b.
Qed.

(** Every field of a well-formed container is a live array of the right
    length, or, for an optional field only, the null pointer. *)
Lemma wf_field st e N M f :
  wf_container st e N M →
  (is_optional f = true ∧ field_ptr f e = nullptr) ∨
  array_ok st (field_length f N M) (field_ptr f e).
Proof.
  intros [Hs Hd Hw Hi Ht Ho _ _ _ _ _].
  unfold opt_array_ok in Hw, Hi, Ht.
  destruct f; simpl; try (right; assumption).
  - destruct (decide (wgt_ e = nullptr)); [left | right]; done.
  - destruct (decide (edge_ids_ e = nullptr)); [left | right]; done.
  - destruct (decide (edge_type_ids_ e = nullptr)); [left | right]; done.
Qed.

Lemma wf_field_mandatory st e N M f :
  wf_container st e N M → is_optional f = false → field_ptr f e ≠ nullptr.
Proof.
  intros Hwf Hf. destruct (wf_field st e N M f Hwf) as [[? _]|Hok]; [congruence|].
  apply array_ok_live in Hok as (a & b & Hd & _). by apply deref_Some in Hd as [? _].
Qed.

(** ** The accessors *)

Lemma preserves_refl st : preserves st st.
Proof. by split. Qed.

Lemma preserves_trans st1 st2 st3 :
  preserves st1 st2 → preserves st2 st3 → preserves st1 st3.
Proof.
  intros (H1 & D1 & C1) (H2 & D2 & C2). split; [|split]; [auto|congruence..].
Qed.

Lemma with_view_preserves st a : preserves st (with_view st a).
Proof.
  split; [|done]. intros p o [Hp Ho]%deref_Some. apply deref_Some. split; [done|].
  simpl. rewrite lookup_insert_ne; [done|].
  intros <-. by rewrite fresh_ptr_fresh in Ho.
Qed.

Lemma view_at_with_view st a :
  view_at (with_view st a) (fresh_ptr (host st)) = Some (view_of a).
Proof.
  unfold view_at, deref. case_decide as Hn; [by apply fresh_ptr_nonnull in Hn|].
  simpl. by rewrite lookup_insert_eq.
Qed.

Lemma array_view_live st p a :
  deref st p = Some (OArray a) →
  array_view p st = Done (fresh_ptr (host st)) (with_view st a).
Proof. unfold array_view. by intros ->. Qed.

(** Every accessor is the same code, up to the field it reads and to
    whether it tests that field for null. *)
Lemma getter_unfold f h st :
  getter f h st =
  match deref st h with
  | Some (OEdgelist e) =>
      if is_optional f && bool_decide (field_ptr f e = nullptr) then Done NULL st
      else array_view (field_ptr f e) st
  | _ => Undefined
  end.
Proof.
  destruct f; simpl;
    unfold cugraph_edgelist_get_sources, cugraph_edgelist_get_destinations,
      cugraph_edgelist_get_edge_weights, cugraph_edgelist_get_edge_ids,
      cugraph_edgelist_get_edge_type_ids, cugraph_edgelist_get_edge_offsets,
      bind, load_edgelist;
    destruct (deref st h) as [[]|]; try done;
    simpl; case_decide; case_bool_decide; done.
Qed.

Lemma getter_invalid f h st : invalid_handle st h → getter f h st = Undefined.
Proof.
  intros Hinv. rewrite getter_unfold. unfold invalid_handle in Hinv.
  destruct (deref st h) as [[]|]; done.
Qed.

(** What an accessor does on a well-formed container: the sentinel for an
    optional field whose pointer is null, a new View of the array
    otherwise. *)
Lemma getter_wf st h e N M f :
  deref st h = Some (OEdgelist e) → wf_container st e N M →
  (is_optional f = true ∧ field_ptr f e = nullptr ∧ getter f h st = Done NULL st) ∨
  (∃ a b, field_ptr f e ≠ nullptr ∧
          deref st (field_ptr f e) = Some (OArray a) ∧
          device st !! data_ a = Some b ∧
          size_ a = field_length f N M ∧
          Z.of_nat (length (buf_elems b)) = field_length f N M ∧
          buf_type b = type_ a ∧
          getter f h st = Done (fresh_ptr (host st)) (with_view st a)).
Proof.
  intros Hh Hwf. rewrite getter_unfold, Hh.
  destruct (wf_field st e N M f Hwf) as [[Hopt Hnull]|Hok].
  - left. by rewrite Hopt, bool_decide_eq_true_2.
  - right. apply array_ok_live in Hok as (a & b & Hd & Hb & Hsz & Hlen & Hty).
    pose proof Hd as [Hp _]%deref_Some.
    exists a, b. rewrite (bool_decide_eq_false_2 _ Hp), andb_false_r.
    by rewrite (array_view_live _ _ _ Hd).
Qed.

(** ** Well-formedness is stable under allocation *)

Lemma array_ok_preserved st st' n p :
  preserves st st' → array_ok st n p → array_ok st' n p.
Proof.
  intros (Hh & Hd & _) (a & b & Ha & Hb & ? & ? & ?)%array_ok_live.
  unfold array_ok. by rewrite (Hh _ _ Ha), Hd, Hb.
Qed.

Lemma buffer_of_preserved st st' e N M f :
  preserves st st' → wf_container st e N M →
  buffer_of st' (field_ptr f e) = buffer_of st (field_ptr f e).
Proof.
  intros (Hh & _) Hwf. unfold buffer_of.
  destruct (wf_field st e N M f Hwf) as [[_ ->]|Hok].
  - by rewrite !deref_nullptr.
  - apply array_ok_live in Hok as (a & b & Ha & _). by rewrite (Hh _ _ Ha), Ha.
Qed.

Lemma owned_buffers_preserved st st' e N M :
  preserves st st' → wf_container st e N M →
  owned_buffers st' e = owned_buffers st e.
Proof.
  intros Hp Hwf. unfold owned_buffers, fields_of.
  pose proof (λ f, buffer_of_preserved st st' e N M f Hp Hwf) as Hb.
  change (omap (buffer_of st') ((λ f, field_ptr f e) <$> all_fields) =
          omap (buffer_of st) ((λ f, field_ptr f e) <$> all_fields)).
  induction all_fields as [|f fs IH]; [done|].
  csimpl. by rewrite Hb, IH.
Qed.

Lemma wf_container_preserved st st' e N M :
  preserves st st' → wf_container st e N M → wf_container st' e N M.
Proof.
  intros Hp Hwf.
  assert (Hoff : offsets_elems st' e = offsets_elems st e).
  { unfold offsets_elems.
    pose proof (buffer_of_preserved st st' e N M EdgeOffsets Hp Hwf) as Hb.
    simpl in Hb. rewrite Hb. destruct Hp as (_ & -> & _). done. }
  pose proof (owned_buffers_preserved st st' e N M Hp Hwf) as Hbuf.
  destruct Hwf as [Hs Hd Hw Hi Ht Ho Hn Hnb Hf Hl Hsorted].
  assert (Hopt : ∀ p, opt_array_ok st N p → opt_array_ok st' N p).
  { unfold opt_array_ok. intros p. case_decide; eauto using array_ok_preserved. }
  split; rewrite ?Hoff, ?Hbuf; eauto using array_ok_preserved.
Qed.

Lemma wf_edgelist_preserved st st' h N M :
  preserves st st' → wf_edgelist st h N M → wf_edgelist st' h N M.
Proof.
  intros Hp (e & Hh & Hwf)%wf_edgelist_live. unfold wf_edgelist.
  destruct Hp as (Hpres & Hrest). rewrite (Hpres _ _ Hh).
  apply (wf_container_preserved st); [by split|done].
Qed.

(** ** The destructor *)

Lemma free_unfold h :
  cugraph_edgelist_free h = delete_fields all_fields h (delete_edgelist h).
Proof. reflexivity. Qed.

Lemma delete_array_nullptr st : delete_array nullptr st = Done () st.
Proof. unfold delete_array. by case_decide. Qed.

Lemma delete_array_live st p a b :
  p ≠ nullptr → host st !! p = Some (OArray a) → device st !! data_ a = Some b →
  delete_array p st =
  Done () (State (delete p (host st)) (delete (data_ a) (device st)) (device_capacity st)).
Proof. intros Hp Ha Hb. unfold delete_array. case_decide; [done|]. by rewrite Ha, Hb. Qed.

Lemma buffer_of_nullptr st : buffer_of st nullptr = None.
Proof. unfold buffer_of. by rewrite deref_nullptr. Qed.

Lemma buffer_of_live st p a :
  p ≠ nullptr → host st !! p = Some (OArray a) → buffer_of st p = Some (data_ a).
Proof.
  intros Hp Ha. unfold buffer_of.
  by rewrite (proj2 (deref_Some st p (OArray a)) (conj Hp Ha)).
Qed.

Lemma buffer_of_Some st p d :
  buffer_of st p = Some d →
  p ≠ nullptr ∧ ∃ a, host st !! p = Some (OArray a) ∧ data_ a = d.
Proof.
  unfold buffer_of. destruct (deref st p) as [[a| |]|] eqn:E; try done.
  intros [= <-]. apply deref_Some in E as [? ?]. eauto.
Qed.

Lemma omap_ext_elem {A B} (f g : A → option B) (l : list A) :
  (∀ x, x ∈ l → f x = g x) → omap f l = omap g l.
Proof.
  induction l as [|x l IH]; intros H; [done|]. csimpl.
  rewrite (H x) by left. rewrite IH; [done|]. intros y Hy. apply H. by right.
Qed.

Lemma omap_buffer_of_cons st p ps :
  omap (buffer_of st) (p :: ps) =
  match buffer_of st p with
  | Some d => d :: omap (buffer_of st) ps
  | None => omap (buffer_of st) ps
  end.
Proof. reflexivity. Qed.

Lemma if_elem_of_cons_ne {T} (x y : Z) (l : list Z) (u v : T) :
  x ≠ y →
  (if decide (x ∈ y :: l) then u else v) = (if decide (x ∈ l) then u else v).
Proof.
  intros Hne. destruct (decide (x ∈ l)) as [Hin|Hin].
  - apply decide_True. by right.
  - apply decide_False. by intros [?|?]%elem_of_cons.
Qed.

Lemma if_elem_of_cons_eq {T} (x : Z) (l : list Z) (u v : T) :
  (if decide (x ∈ x :: l) then u else v) = u.
Proof. apply decide_True. by left. Qed.

Lemma released_nil st : released [] [] st st.
Proof.
  split; [|split]; [intros q|intros d|done]; case_decide as H; try done;
    by apply elem_of_nil in H.
Qed.

(** Deleting one live array keeps the others deletable. *)
Lemma releasable_step st p a b ps :
  p ≠ nullptr → host st !! p = Some (OArray a) → device st !! data_ a = Some b →
  releasable st (p :: ps) →
  let st1 := State (delete p (host st)) (delete (data_ a) (device st))
                   (device_capacity st) in
  (p ∉ filter (λ p, p ≠ nullptr) ps) ∧
  (data_ a ∉ omap (buffer_of st) ps) ∧
  omap (buffer_of st1) ps = omap (buffer_of st) ps ∧
  releasable st1 ps.
Proof.
  intros Hp Ha Hb (Hall & Hnd & Hndb) st1.
  rewrite filter_cons_True in Hnd by done.
  rewrite omap_buffer_of_cons, (buffer_of_live _ _ _ Hp Ha) in Hndb.
  apply NoDup_cons in Hnd as [Hpn Hnd]. apply NoDup_cons in Hndb as [Hdn Hndb].
  apply Forall_cons in Hall as [_ Hall].
  assert (Hne : ∀ q, q ∈ ps → q ≠ nullptr → q ≠ p).
  { intros q Hq Hq0 ->. apply Hpn. by apply list_elem_of_filter. }
  assert (Hbuf : ∀ q, q ∈ ps → buffer_of st1 q = buffer_of st q).
  { intros q Hq. unfold buffer_of, deref. case_decide as Hq0; [done|].
    simpl. by rewrite lookup_delete_ne by (symmetry; auto). }
  assert (Homap : omap (buffer_of st1) ps = omap (buffer_of st) ps)
    by (by apply omap_ext_elem).
  split; [done|]. split; [done|]. split; [done|].
  split; [|split]; [|done|by rewrite Homap].
  apply Forall_forall. intros q Hq.
  rewrite Forall_forall in Hall.
  destruct (decide (q = nullptr)) as [Hq0|Hq0]; [by left|].
  destruct (Hall q Hq) as [?|(a' & Ha' & Hb')]; [done|].
  right. exists a'. simpl. rewrite lookup_delete_ne by (symmetry; auto).
  split; [done|]. rewrite lookup_delete_ne; [done|].
  intros Heq. apply Hdn. apply list_elem_of_omap. exists q. split; [done|].
  rewrite Heq. by apply buffer_of_live.
Qed.

(** The statements of the destructor that delete arrays all run, and what
    follows them runs in the state without those arrays and buffers. *)
Lemma delete_fields_spec h e rest fs : ∀ st,
  deref st h = Some (OEdgelist e) →
  releasable st ((λ f, field_ptr f e) <$> fs) →
  ∃ st', delete_fields fs h rest st = rest st' ∧
         deref st' h = Some (OEdgelist e) ∧
         released (filter (λ p, p ≠ nullptr) ((λ f, field_ptr f e) <$> fs))
                  (omap (buffer_of st) ((λ f, field_ptr f e) <$> fs)) st st'.
Proof.
  induction fs as [|f fs IH]; intros st Hh Hrel.
  { exists st. split; [done|]. split; [done|]. apply released_nil. }
  csimpl in *. unfold delete_field at 1, bind at 1 2.
  rewrite (load_edgelist_live _ _ _ Hh).
  set (p := field_ptr f e) in *.
  destruct (decide (p = nullptr)) as [Hp|Hp].
  - (* an absent optional field: nothing to delete *)
    rewrite Hp, delete_array_nullptr.
    destruct (IH st Hh) as (st' & Hrun & Hh' & Hreleased).
    { destruct Hrel as (Hall & Hnd & Hndb). rewrite Hp in *.
      rewrite filter_cons_False in Hnd by (by intros ?).
      rewrite omap_buffer_of_cons, buffer_of_nullptr in Hndb.
      apply Forall_cons in Hall as [_ Hall]. by split. }
    exists st'. split; [done|]. split; [done|].
    rewrite filter_cons_False by (by intros ?).
    by rewrite buffer_of_nullptr.
  - (* a live array *)
    pose proof Hrel as (Hall & _).
    apply Forall_cons in Hall as [[?|(a & Ha & [b Hb])] _]; [done|].
    rewrite (delete_array_live _ _ _ _ Hp Ha Hb).
    destruct (releasable_step st p a b _ Hp Ha Hb Hrel) as (Hpn & Hdn & Homap & Hrel1).
    set (st1 := State _ _ _) in *.
    assert (Hh1 : deref st1 h = Some (OEdgelist e)).
    { apply deref_Some in Hh as [Hh0 Hh]. apply deref_Some. split; [done|].
      simpl. rewrite lookup_delete_ne; [done|]. intros ->. congruence. }
    destruct (IH st1 Hh1 Hrel1) as (st' & Hrun & Hh' & Hho & Hde & Hcap).
    exists st'. split; [done|]. split; [done|].
    rewrite filter_cons_True by done.
    rewrite (buffer_of_live _ _ _ Hp Ha). rewrite Homap in Hde.
    split; [|split]; [| |by rewrite Hcap].
    + intros q. rewrite Hho. simpl.
      destruct (decide (q = p)) as [->|Hqp].
      * by rewrite lookup_delete_eq, if_elem_of_cons_eq, decide_False.
      * by rewrite lookup_delete_ne, if_elem_of_cons_ne.
    + intros d. rewrite Hde. simpl.
      destruct (decide (d = data_ a)) as [->|Hda].
      * by rewrite lookup_delete_eq, if_elem_of_cons_eq, decide_False.
      * by rewrite lookup_delete_ne, if_elem_of_cons_ne.
Qed.

Lemma fields_of_all e : fields_of e = (λ f, field_ptr f e) <$> all_fields.
Proof. reflexivity. Qed.

Lemma wf_releasable st e N M : wf_container st e N M → releasable st (fields_of e).
Proof.
  intros Hwf. split; [|split]; [|apply Hwf..].
  rewrite fields_of_all. apply Forall_fmap, Forall_forall. intros f _. simpl.
  destruct (wf_field st e N M f Hwf) as [[_ ?]|Hok]; [by left|].
  apply array_ok_live in Hok as (a & b & [_ Ha]%deref_Some & Hb & _).
  right. exists a. by rewrite Hb.
Qed.

Lemma delete_edgelist_live st h e :
  deref st h = Some (OEdgelist e) →
  delete_edgelist h st =
  Done () (State (delete h (host st)) (device st) (device_capacity st)).
Proof.
  intros [Hh0 Hh]%deref_Some. unfold delete_edgelist.
  case_decide; [done|]. by rewrite Hh.
Qed.

(** The destructor on a container whose arrays can be deleted: it returns,
    and the state it leaves is the one before without the container,
    without the arrays the container owned and without their buffers. *)
Lemma free_releasable st h e :
  deref st h = Some (OEdgelist e) → releasable st (fields_of e) →
  ∃ st', cugraph_edgelist_free h st = Done () st' ∧
         released (h :: owned e) (owned_buffers st e) st st'.
Proof.
  intros Hh Hrel. rewrite free_unfold.
  destruct (delete_fields_spec h e (delete_edgelist h) all_fields st Hh) as
    (st1 & Hrun & Hh1 & Hho & Hde & Hcap).
  { by rewrite <- fields_of_all. }
  rewrite <- fields_of_all in Hho, Hde. fold (owned e) in Hho.
  fold (owned_buffers st e) in Hde.
  rewrite Hrun, (delete_edgelist_live _ _ _ Hh1).
  eexists. split; [done|]. split; [|split]; simpl; [|done..].
  intros q. destruct (decide (q = h)) as [->|Hq].
  - by rewrite lookup_delete_eq, if_elem_of_cons_eq.
  - by rewrite lookup_delete_ne, if_elem_of_cons_ne, Hho.
Qed.

Lemma free_spec st h e N M :
  deref st h = Some (OEdgelist e) → wf_container st e N M →
  ∃ st', cugraph_edgelist_free h st = Done () st' ∧
         released (h :: owned e) (owned_buffers st e) st st'.
Proof. intros Hh Hwf. apply free_releasable; [done|]. by eapply wf_releasable. Qed.

(** Once freed, a handle is invalid. *)
Lemma released_invalid st st' h ps ds :
  released (h :: ps) ds st st' → invalid_handle st' h.
Proof.
  intros (Hho & _). unfold invalid_handle, deref. case_decide; [done|].
  by rewrite Hho, if_elem_of_cons_eq.
Qed.

(** ** The producer *)

Lemma state_eta st : State (host st) (device st) (device_capacity st) = st.
Proof. by destruct st. Qed.

Lemma new_array_spec b st :
  new_array b st = Done None st ∨
  ∃ p d,
    new_array b st =
      Done (Some p)
           (State (<[p := OArray (DeviceArray (Z.of_nat (length (buf_elems b))) d (buf_type b))]>
                    (host st))
                  (<[d := b]> (device st)) (device_capacity st)) ∧
    p ≠ nullptr ∧ host st !! p = None ∧ device st !! d = None.
Proof.
  unfold new_array, device_alloc. case_decide; [|by left].
  right. exists (fresh_ptr (host st)), (fresh_ptr (device st)). simpl.
  split; [done|]. split; [apply fresh_ptr_nonnull|].
  split; apply fresh_ptr_fresh.
Qed.

(** Deleting an array that was just made gives back the state before. *)
Lemma new_array_undo b st p st1 :
  new_array b st = Done (Some p) st1 → delete_array p st1 = Done () st.
Proof.
  destruct (new_array_spec b st) as [->|(p' & d & -> & Hp & Hfp & Hfd)]; [done|].
  intros [= <- <-].
  erewrite delete_array_live; [|done|simpl; apply lookup_insert_eq|
                               simpl; apply lookup_insert_eq].
  simpl. rewrite !delete_insert_id by done. by rewrite state_eta.
Qed.

Lemma new_opt_array_undo r st p st1 :
  new_opt_array r st = Done (Some p) st1 → delete_array p st1 = Done () st.
Proof.
  destruct r as [b|]; simpl; [apply new_array_undo|].
  intros [= <- <-]. apply delete_array_nullptr.
Qed.

Lemma new_opt_array_defined r st :
  new_opt_array r st = Done None st ∨
  ∃ p st1, new_opt_array r st = Done (Some p) st1.
Proof.
  destruct r as [b|]; simpl; [|right; by eexists _, _].
  destruct (new_array_spec b st) as [->|(p & d & -> & _)]; [by left|].
  right. by eexists _, _.
Qed.

Lemma new_arrays_cons r reqs st :
  new_arrays (r :: reqs) st =
  match new_opt_array r st with
  | Done (Some p) st1 =>
      match new_arrays reqs st1 with
      | Done (Some ps) st' => Done (Some (p :: ps)) st'
      | Done None st' =>
          match delete_array p st' with
          | Done _ st'' => Done None st''
          | Undefined => Undefined
          end
      | Undefined => Undefined
      end
  | Done None st1 => Done None st1
  | Undefined => Undefined
  end.
Proof.
  simpl. unfold bind, ret.
  destruct (new_opt_array r st) as [[p|] st1|]; [|done..].
  by destruct (new_arrays reqs st1) as [[ps|] st'|].
Qed.

(** Making the arrays is all-or-nothing: either every array is made, or
    the state is the one before and no array is returned. *)
Lemma new_arrays_all_or_nothing reqs : ∀ st,
  new_arrays reqs st = Done None st ∨
  ∃ ps st', new_arrays reqs st = Done (Some ps) st'.
Proof.
  induction reqs as [|r reqs IH]; intros st.
  { right. by exists [], st. }
  rewrite new_arrays_cons.
  destruct (new_opt_array_defined r st) as [->|(p & st1 & Hp)]; [by left|].
  rewrite Hp.
  destruct (IH st1) as [->|(ps & st' & ->)].
  - left. by rewrite (new_opt_array_undo _ _ _ _ Hp).
  - right. by exists (p :: ps), st'.
Qed.

Lemma Forall2_elem_of_r {A B} (P : A → B → Prop) l k y :
  Forall2 P l k → y ∈ k → ∃ x, x ∈ l ∧ P x y.
Proof.
  intros HF [i Hi]%list_elem_of_lookup.
  destruct (Forall2_lookup_r _ _ _ _ _ HF Hi) as (x & Hx & HP).
  exists x. split; [|done]. apply list_elem_of_lookup. eauto.
Qed.

Lemma made_host_fresh st st' reqs ps q :
  Forall2 (made st st') reqs ps → q ∈ filter (λ p, p ≠ nullptr) ps →
  host st !! q = None.
Proof.
  intros HF [Hq0 Hq]%list_elem_of_filter.
  destruct (Forall2_elem_of_r _ _ _ _ HF Hq) as ([b|] & _ & Hmade); simpl in Hmade.
  - by destruct Hmade as (_ & ? & _).
  - done.
Qed.

Lemma made_buffer_fresh st st' reqs ps d :
  Forall2 (made st st') reqs ps → d ∈ omap (buffer_of st') ps →
  device st !! d = None.
Proof.
  intros HF (q & Hq & Hbuf)%list_elem_of_omap.
  apply buffer_of_Some in Hbuf as (Hq0 & a & Ha & <-).
  destruct (Forall2_elem_of_r _ _ _ _ HF Hq) as ([b|] & _ & Hmade); simpl in Hmade.
  - destruct Hmade as (_ & _ & d' & Ha' & Hd' & _).
    rewrite Ha in Ha'. by injection Ha' as ->.
  - done.
Qed.

Lemma made_weaken st0 st st' r p :
  (∀ q, host st !! q = None → host st0 !! q = None) →
  (∀ d, device st !! d = None → device st0 !! d = None) →
  made st st' r p → made st0 st' r p.
Proof.
  intros Hh Hd. destruct r as [b|]; simpl; [|done].
  intros (? & ? & d & ? & ? & ?). split; [done|]. split; [auto|].
  exists d. auto.
Qed.

(** When every array is made, each is new and holds its column, no two of
    them share storage, and nothing that was there before has changed. *)
Lemma new_arrays_made reqs : ∀ st ps st',
  new_arrays reqs st = Done (Some ps) st' →
  Forall2 (made st st') reqs ps ∧
  NoDup (filter (λ p, p ≠ nullptr) ps) ∧
  NoDup (omap (buffer_of st') ps) ∧
  grown (filter (λ p, p ≠ nullptr) ps) (omap (buffer_of st') ps) st st'.
Proof.
  induction reqs as [|r reqs IH]; intros st ps0 st'.
  { intros [= <- <-]. split; [constructor|]. split; [constructor|].
    split; [constructor|]. by split. }
  rewrite new_arrays_cons.
  destruct (new_opt_array r st) as [[p|] st1|] eqn:Hp; [|done..].
  destruct (new_arrays reqs st1) as [[ps|] st2|] eqn:Hps;
    [|by destruct (delete_array p st2)|done].
  intros [= <- <-].
  destruct (IH _ _ _ Hps) as (HF & Hnd & Hndb & Hgh & Hgd & Hcap).
  destruct r as [b|]; simpl in Hp.
  - (* a requested array *)
    destruct (new_array_spec b st) as [Hnone|(p' & d & Hsome & Hp0 & Hfp & Hfd)];
      [congruence|].
    rewrite Hsome in Hp. injection Hp as -> <-. simpl in Hgh, Hgd, Hcap.
    assert (Hpn : p ∉ filter (λ p, p ≠ nullptr) ps).
    { intros Hin. pose proof (made_host_fresh _ _ _ _ _ HF Hin) as Hq.
      simpl in Hq. by rewrite lookup_insert_eq in Hq. }
    assert (Hdn : d ∉ omap (buffer_of st2) ps).
    { intros Hin. pose proof (made_buffer_fresh _ _ _ _ _ HF Hin) as Hq.
      simpl in Hq. by rewrite lookup_insert_eq in Hq. }
    assert (Hp2 : host st2 !! p =
                  Some (OArray (DeviceArray (Z.of_nat (length (buf_elems b))) d (buf_type b)))).
    { by rewrite (Hgh _ Hpn), lookup_insert_eq. }
    assert (Hd2 : device st2 !! d = Some b).
    { by rewrite (Hgd _ Hdn), lookup_insert_eq. }
    rewrite filter_cons_True by done.
    rewrite omap_buffer_of_cons, (buffer_of_live _ _ _ Hp0 Hp2). simpl.
    split; [|split; [|split]].
    + constructor.
      * simpl. split; [done|]. split; [done|]. by exists d.
      * eapply Forall2_impl; [exact HF|]. intros r q. apply made_weaken; simpl.
        -- intros q'. rewrite lookup_insert_None. by intros [? _].
        -- intros d'. rewrite lookup_insert_None. by intros [? _].
    + by constructor.
    + by constructor.
    + split; [|split]; [| |done].
      * intros q [Hqp Hq]%not_elem_of_cons. by rewrite (Hgh _ Hq), lookup_insert_ne.
      * intros d' [Hdd Hd']%not_elem_of_cons. by rewrite (Hgd _ Hd'), lookup_insert_ne.
  - (* a field the graph does not have *)
    injection Hp as <- <-.
    rewrite filter_cons_False by (by intros ?).
    rewrite omap_buffer_of_cons, buffer_of_nullptr.
    split; [by constructor|]. split; [done|]. split; [done|]. by split.
Qed.

Lemma host_alloc_preserves o st : preserves st (host_alloc o st).2.
Proof.
  split; [|done]. intros p o' [Hp Ho]%deref_Some. apply deref_Some. split; [done|].
  simpl. rewrite lookup_insert_ne; [done|].
  intros <-. by rewrite fresh_ptr_fresh in Ho.
Qed.

Lemma made_array_ok st st' b p n :
  made st st' (Some b) p → column_ok n b → array_ok st' n p.
Proof.
  intros (Hp & _ & d & Ha & _ & Hb) Hn. unfold array_ok.
  rewrite (proj2 (deref_Some _ _ _) (conj Hp Ha)). simpl. by rewrite Hb.
Qed.

Lemma made_opt_array_ok st st' ob p n :
  made st st' ob p → from_option (column_ok n) True ob → opt_array_ok st' n p.
Proof.
  unfold opt_array_ok. destruct ob as [b|]; simpl.
  - intros Hm Hn. pose proof Hm as (Hp & _). rewrite decide_False by done.
    by eapply made_array_ok.
  - intros -> _. by rewrite decide_True.
Qed.

Lemma made_elems st st' b p :
  made st st' (Some b) p →
  ∃ d, buffer_of st' p = Some d ∧ device st' !! d = Some b.
Proof.
  intros (Hp & _ & d & Ha & _ & Hb). exists d. split; [|done].
  by rewrite (buffer_of_live _ _ _ Hp Ha).
Qed.

(** What a successful construction leaves: a container whose fields were
    all made for the columns, beside the state before. *)
Lemma make_edgelist_made c st h st' :
  make_edgelist c st = Done (Some h) st' →
  ∃ e, deref st' h = Some (OEdgelist e) ∧
       Forall2 (made st st') (requests c) (fields_of e) ∧
       NoDup (owned e) ∧
       NoDup (owned_buffers st' e) ∧
       grown (h :: owned e) (owned_buffers st' e) st st' ∧
       host st !! h = None.
Proof.
  unfold make_edgelist, bind.
  destruct (new_arrays (requests c) st) as [[ps|] st1|] eqn:Hnew; [|done..].
  destruct (new_arrays_made _ _ _ _ Hnew) as (HF & Hnd & Hndb & Hgh & Hgd & Hcap).
  pose proof (Forall2_length _ _ _ HF) as Hlen.
  destruct ps as [|src [|dst [|wgt [|ids [|tys [|offs [|? ?]]]]]]]; try done.
  unfold new_object, ret. simpl. intros [= <- <-].
  set (e := Edgelist src dst wgt ids tys offs).
  set (h := fresh_ptr (host st1)).
  set (st' := State (<[h := OEdgelist e]> (host st1)) (device st1) (device_capacity st1)).
  change [src; dst; wgt; ids; tys; offs] with (fields_of e) in *.
  fold (owned e) in Hnd, Hgh.
  assert (Hpres : preserves st1 st') by apply (host_alloc_preserves (OEdgelist e) st1).
  assert (Hh0 : h ≠ nullptr) by apply fresh_ptr_nonnull.
  assert (Hhf : host st1 !! h = None) by apply fresh_ptr_fresh.
  assert (Hbuf : omap (buffer_of st') (fields_of e) = omap (buffer_of st1) (fields_of e)).
  { apply omap_ext_elem. intros q _. unfold buffer_of, deref.
    case_decide; [done|]. simpl.
    destruct (decide (q = h)) as [->|Hq].
    - by rewrite lookup_insert_eq, Hhf.
    - by rewrite lookup_insert_ne. }
  exists e. split; [|split; [|split; [|split; [|split]]]].
  6: { destruct (decide (h ∈ owned e)) as [Hin|Hin].
       - by eapply made_host_fresh.
       - by rewrite <- (Hgh _ Hin). }
  - apply deref_Some. split; [done|]. simpl. apply lookup_insert_eq.
  - eapply Forall2_impl; [exact HF|]. intros [b|] q; simpl; [|done].
    intros (Hq0 & Hq & d & Ha & Hd & Hb). split; [done|]. split; [done|].
    exists d. split; [|done].
    destruct Hpres as (Hpres & _).
    pose proof (Hpres q _ (proj2 (deref_Some _ _ _) (conj Hq0 Ha))) as Hx.
    by apply deref_Some in Hx as [_ ?].
  - done.
  - unfold owned_buffers. by rewrite Hbuf.
  - unfold owned_buffers. rewrite Hbuf. split; [|split]; [| |done].
    + intros q [Hqh Hq]%not_elem_of_cons. simpl.
      by rewrite lookup_insert_ne, (Hgh _ Hq).
    + intros d Hd. simpl. by apply Hgd.
Qed.

Lemma make_edgelist_wf c st h st' N M :
  columns_ok c N M → make_edgelist c st = Done (Some h) st' →
  wf_edgelist st' h N M.
Proof.
  intros [Hs Hd Hw Hi Ht Ho Hfirst Hlast Hsorted] Hmake.
  destruct (make_edgelist_made _ _ _ _ Hmake) as (e & Hh & HF & Hnd & Hndb & _ & _).
  unfold wf_edgelist. rewrite Hh.
  unfold requests, fields_of in HF.
  apply Forall2_cons in HF as [Hms HF]. apply Forall2_cons in HF as [Hmd HF].
  apply Forall2_cons in HF as [Hmw HF]. apply Forall2_cons in HF as [Hmi HF].
  apply Forall2_cons in HF as [Hmt HF]. apply Forall2_cons in HF as [Hmo _].
  assert (Hoff : offsets_elems st' e = buf_elems (col_offsets c)).
  { unfold offsets_elems. destruct (made_elems _ _ _ _ Hmo) as (d & -> & ->). done. }
  split; rewrite ?Hoff;
    eauto using made_array_ok, made_opt_array_ok.
Qed.

(** ** Packing *)

Lemma offsets_from_length s gs : length (offsets_from s gs) = S (length gs).
Proof. revert s. induction gs as [|g gs IH]; intros s; simpl; [done|]. by rewrite IH. Qed.

Lemma offsets_from_head s gs : head (offsets_from s gs) = Some s.
Proof. by destruct gs. Qed.

(** The offset at index [i] is the number of edges of the subgraphs
    before the [i]-th. *)
Lemma offsets_from_lookup gs : ∀ s (i : nat) x,
  offsets_from s gs !! i = Some x ↔
  (i ≤ length gs)%nat ∧ x = s + Z.of_nat (length (concat (take i gs))).
Proof.
  induction gs as [|g gs IH]; intros s i x.
  - destruct i as [|i]; simpl.
    + split; [intros [= <-]; split; [lia|lia] | intros [_ ->]; f_equal; lia].
    + split; [done | intros [? _]; lia].
  - destruct i as [|i]; simpl.
    + split; [intros [= <-]; split; lia | intros [_ ->]; f_equal; lia].
    + rewrite IH, length_app. split; intros [? ->]; split; lia.
Qed.

Lemma offsets_from_last s gs :
  last (offsets_from s gs) = Some (s + Z.of_nat (length (concat gs))).
Proof.
  rewrite last_lookup, offsets_from_length. simpl.
  apply offsets_from_lookup. split; [done|]. by rewrite firstn_all.
Qed.

Lemma offsets_from_sorted s gs : Sorted Z.le (offsets_from s gs).
Proof.
  revert s. induction gs as [|g gs IH]; intros s; simpl.
  - repeat constructor.
  - constructor; [apply IH|].
    destruct gs; simpl; constructor; lia.
Qed.

Lemma concat_take_mono {A} (gs : list (list A)) : ∀ i j : nat,
  (i ≤ j)%nat → (length (concat (take i gs)) ≤ length (concat (take j gs)))%nat.
Proof.
  induction gs as [|g gs IH]; intros [|i] [|j] Hij; simpl;
    rewrite ?length_app; try lia.
  specialize (IH i j). lia.
Qed.

Lemma offsets_from_mono s gs (i j : nat) x y :
  (i ≤ j)%nat → offsets_from s gs !! i = Some x → offsets_from s gs !! j = Some y →
  x ≤ y.
Proof.
  intros Hij [Hi ->]%offsets_from_lookup [Hj ->]%offsets_from_lookup.
  pose proof (concat_take_mono gs i j Hij). lia.
Qed.

Lemma pack_ok ts gs :
  columns_ok (pack ts gs) (Z.of_nat (length (concat gs))) (Z.of_nat (length gs)).
Proof.
  split; unfold column_ok; simpl.
  - by rewrite length_fmap.
  - by rewrite length_fmap.
  - destruct (weight_t ts); simpl; [|done]. unfold column_ok. simpl. by rewrite length_fmap.
  - destruct (edge_id_t ts); simpl; [|done]. unfold column_ok. simpl. by rewrite length_fmap.
  - destruct (edge_type_t ts); simpl; [|done]. unfold column_ok. simpl. by rewrite length_fmap.
  - rewrite offsets_from_length. lia.
  - apply offsets_from_head.
  - by rewrite offsets_from_last, Z.add_0_l.
  - apply offsets_from_sorted.
Qed.

(** ** Construction, then the accessor API *)

Lemma make_edgelist_defined c st :
  make_edgelist c st = Done None st ∨
  ∃ h st', make_edgelist c st = Done (Some h) st'.
Proof.
  unfold make_edgelist, bind.
  destruct (new_arrays_all_or_nothing (requests c) st) as [->|(ps & st1 & Hnew)];
    [by left|].
  rewrite Hnew. right.
  destruct (new_arrays_made _ _ _ _ Hnew) as (HF & _).
  pose proof (Forall2_length _ _ _ HF) as Hlen.
  destruct ps as [|src [|dst [|wgt [|ids [|tys [|offs [|? ?]]]]]]]; try done.
  unfold new_object, ret. simpl. by eexists _, _.
Qed.

Lemma made_releasable st st' reqs ps :
  Forall2 (made st st') reqs ps →
  Forall (λ p, p = nullptr ∨
               ∃ a, host st' !! p = Some (OArray a) ∧ is_Some (device st' !! data_ a)) ps.
Proof.
  induction 1 as [|r p reqs ps Hm _ IH]; constructor; [|done].
  destruct r as [b|]; simpl in Hm; [|by left].
  destruct Hm as (_ & _ & d & Ha & _ & Hb). right. eexists. split; [done|].
  simpl. by rewrite Hb.
Qed.

(** Freeing a result right after it was made gives back the state before
    the construction: every allocation is returned. *)
Lemma make_free_baseline c st h st1 :
  make_edgelist c st = Done (Some h) st1 →
  cugraph_edgelist_free h st1 = Done () st.
Proof.
  intros Hmake.
  destruct (make_edgelist_made _ _ _ _ Hmake) as
    (e & Hh & HF & Hnd & Hndb & (Hgh & Hgd & Hgc) & Hhf).
  destruct (free_releasable st1 h e Hh) as (st' & -> & Hho & Hde & Hcap).
  { split; [|by split]. by eapply made_releasable. }
  f_equal. destruct st as [ho de ca], st' as [ho' de' ca']. simpl in *.
  f_equal; [| |congruence].
  - apply map_eq. intros q. rewrite Hho. case_decide as Hq.
    + apply elem_of_cons in Hq as [->|Hq]; [done|].
      symmetry. apply (made_host_fresh _ _ _ _ _ HF Hq).
    + by apply Hgh.
  - apply map_eq. intros d. rewrite Hde. case_decide as Hd.
    + symmetry. apply (made_buffer_fresh _ _ _ _ _ HF Hd).
    + by apply Hgd.
Qed.

(** Reading back, through an accessor, a field that was made for a
    column gives a View of that column. *)
Lemma getter_made st0 st h e f b :
  deref st h = Some (OEdgelist e) →
  made st0 st (Some b) (field_ptr f e) →
  returns_elems (getter f h) st (buf_type b) (buf_elems b).
Proof.
  intros Hh (Hp & _ & d & Ha & _ & Hb).
  pose proof (proj2 (deref_Some _ _ _) (conj Hp Ha)) as Hd.
  rewrite <- (bool_decide_eq_false (field_ptr f e = nullptr)) in Hp.
  set (a := DeviceArray (Z.of_nat (length (buf_elems b))) d (buf_type b)) in *.
  exists (fresh_ptr (host st)), (with_view st a), (view_of a).
  split; [|split; [|split; [|split; [|split]]]].
  - by rewrite getter_unfold, Hh, Hp, andb_false_r, (array_view_live _ _ _ Hd).
  - apply fresh_ptr_nonnull.
  - apply view_at_with_view.
  - done.
  - done.
  - unfold view_elems. rewrite view_at_with_view. simpl. by rewrite Hb.
Qed.

Lemma getter_not_made st0 st h e f :
  deref st h = Some (OEdgelist e) →
  is_optional f = true → made st0 st None (field_ptr f e) →
  returns_absent (getter f h) st.
Proof.
  intros Hh Hopt Hnull. simpl in Hnull. unfold returns_absent.
  by rewrite getter_unfold, Hh, Hopt, Hnull, bool_decide_eq_true_2.
Qed.

(** * Main theorems *)

(** ** The destructor *)

Lemma field_ptr_owned e f : field_ptr f e ≠ nullptr → field_ptr f e ∈ owned e.
Proof.
  intros Hp. apply list_elem_of_filter. split; [done|].
  rewrite fields_of_all. apply list_elem_of_fmap. exists f. split; [done|].
  destruct f; unfold all_fields; set_solver.
Qed.

(** C1. On a well-formed result, [cugraph_edgelist_free] returns, and it
    leaves the state without the container, without any of the arrays the
    container owned (every non-null field) and without their device
    buffers; every other object and buffer is as before. There is one
    way out of the function, and on it everything has been released. *)
Theorem cugraph_edgelist_free_releases_all st h N M :
  wf_edgelist st h N M →
  ∃ e st',
    deref st h = Some (OEdgelist e) ∧
    cugraph_edgelist_free h st = Done () st' ∧
    released (h :: owned e) (owned_buffers st e) st st' ∧
    ∀ f, field_ptr f e ≠ nullptr →
         field_ptr f e ∈ owned e ∧
         ∃ d, buffer_of st (field_ptr f e) = Some d ∧ d ∈ owned_buffers st e.
Proof.
  intros (e & Hh & Hwf)%wf_edgelist_live.
  destruct (free_spec st h e N M Hh Hwf) as (st' & Hfree & Hrel).
  exists e, st'. split; [done|]. split; [done|]. split; [done|].
  intros f Hp. split; [by apply field_ptr_owned|].
  destruct (wf_field st e N M f Hwf) as [[_ ?]|Hok]; [done|].
  apply array_ok_live in Hok as (a & b & [_ Ha]%deref_Some & _).
  exists (data_ a). pose proof (buffer_of_live _ _ _ Hp Ha) as Hbuf.
  split; [done|]. apply list_elem_of_omap. exists (field_ptr f e). split; [|done].
  rewrite fields_of_all. apply list_elem_of_fmap. exists f. split; [done|].
  destruct f; unfold all_fields; set_solver.
Qed.

Lemma cugraph_edgelist_free_releases_all_witness :
  wf_edgelist roundtrip_state roundtrip_handle 3 1 ∧
  ∃ e st',
    deref roundtrip_state roundtrip_handle = Some (OEdgelist e) ∧
    cugraph_edgelist_free roundtrip_handle roundtrip_state = Done () st' ∧
    released (roundtrip_handle :: owned e) (owned_buffers roundtrip_state e)
             roundtrip_state st' ∧
    ∀ f, field_ptr f e ≠ nullptr →
         field_ptr f e ∈ owned e ∧
         ∃ d, buffer_of roundtrip_state (field_ptr f e) = Some d ∧
              d ∈ owned_buffers roundtrip_state e.
Proof.
  split; [by_computation|].
  apply (cugraph_edgelist_free_releases_all roundtrip_state roundtrip_handle 3 1).
  by_computation.
Defined.

Lemma owned_length st e N M :
  wf_container st e N M → length (owned e) = (3 + present_count e)%nat.
Proof.
  intros Hwf.
  pose proof (wf_field_mandatory st e N M Sources Hwf eq_refl) as Hs.
  pose proof (wf_field_mandatory st e N M Destinations Hwf eq_refl) as Hd.
  pose proof (wf_field_mandatory st e N M EdgeOffsets Hwf eq_refl) as Ho.
  simpl in Hs, Hd, Ho. unfold owned, present_count, fields_of.
  rewrite !filter_cons, !filter_nil.
  repeat case_decide; try done; simpl; lia.
Qed.

(** C9. Whichever of the three optional fields a well-formed result has,
    [cugraph_edgelist_free] returns: the statement that deletes an absent
    field deletes a null pointer and changes nothing, every array that is
    present is gone afterwards, and so is the container. The number of
    arrays released is three plus the number of optional fields present. *)
Theorem cugraph_edgelist_free_total st h N M :
  wf_edgelist st h N M →
  ∃ e st',
    deref st h = Some (OEdgelist e) ∧
    cugraph_edgelist_free h st = Done () st' ∧
    invalid_handle st' h ∧
    length (owned e) = (3 + present_count e)%nat ∧
    ∀ f, if decide (field_ptr f e = nullptr)
         then is_optional f = true ∧ delete_field f h st = Done () st
         else deref st' (field_ptr f e) = None.
Proof.
  intros (e & Hh & Hwf)%wf_edgelist_live.
  destruct (free_spec st h e N M Hh Hwf) as (st' & Hfree & Hrel).
  exists e, st'. split; [done|]. split; [done|].
  split; [by eapply released_invalid|]. split; [by eapply owned_length|].
  intros f. case_decide as Hp.
  - destruct (wf_field st e N M f Hwf) as [[Hopt _]|Hok].
    + split; [done|]. unfold delete_field, bind.
      by rewrite (load_edgelist_live _ _ _ Hh), Hp, delete_array_nullptr.
    + apply array_ok_live in Hok as (a & b & [? _]%deref_Some & _). done.
  - unfold deref. rewrite decide_False by done.
    destruct Hrel as (Hho & _). rewrite Hho.
    apply decide_True. right. by apply field_ptr_owned.
Qed.

Lemma cugraph_edgelist_free_total_witness :
  wf_edgelist empty_weighted_state empty_weighted_handle 0 1 ∧
  ∃ e st',
    deref empty_weighted_state empty_weighted_handle = Some (OEdgelist e) ∧
    cugraph_edgelist_free empty_weighted_handle empty_weighted_state = Done () st' ∧
    invalid_handle st' empty_weighted_handle ∧
    length (owned e) = (3 + present_count e)%nat ∧
    ∀ f, if decide (field_ptr f e = nullptr)
         then is_optional f = true ∧
              delete_field f empty_weighted_handle empty_weighted_state =
                Done () empty_weighted_state
         else deref st' (field_ptr f e) = None.
Proof.
  split; [by_computation|].
  apply (cugraph_edgelist_free_total empty_weighted_state empty_weighted_handle 0 1).
  by_computation.
Defined.

(** Each of the eight choices of optional fields gives a result, and
    freeing it gives back the state before its construction. *)
Example free_every_presence_combination (w i t : bool) :
  let '(h, st) := constructed (presence_columns w i t) (init_state 1024) in
  h ≠ NULL ∧
  make_edgelist (presence_columns w i t) (init_state 1024) = Done (Some h) st ∧
  present_count
    (match deref st h with Some (OEdgelist e) => e | _ => Edgelist 0 0 0 0 0 0 end) =
    (Nat.b2n w + Nat.b2n i + Nat.b2n t)%nat ∧
  cugraph_edgelist_free h st = Done () (init_state 1024).
Proof. destruct w, i, t; vm_compute; repeat split; discriminate. Qed.

(** ** The accessors *)

Lemma getter_present st h e N M f :
  deref st h = Some (OEdgelist e) → wf_container st e N M →
  field_ptr f e ≠ nullptr →
  returns_view (getter f h) st (field_length f N M).
Proof.
  intros Hh Hwf Hp.
  destruct (getter_wf st h e N M f Hh Hwf) as
    [(_ & ? & _)|(a & b & _ & Ha & Hb & Hsz & _ & _ & Hget)]; [done|].
  exists (fresh_ptr (host st)), (with_view st a), (view_of a).
  split; [done|]. split; [apply fresh_ptr_nonnull|].
  split; [apply view_at_with_view|done].
Qed.

(** C2. On a well-formed result with [N] edges and [M] subgraphs, the
    accessors of the sources and of the destinations each hand out a
    present View of length [N], and the accessor of the offsets a present
    View of length [M + 1]. *)
Theorem mandatory_getters_present st h N M :
  wf_edgelist st h N M →
  returns_view (cugraph_edgelist_get_sources h) st N ∧
  returns_view (cugraph_edgelist_get_destinations h) st N ∧
  returns_view (cugraph_edgelist_get_edge_offsets h) st (M + 1).
Proof.
  intros (e & Hh & Hwf)%wf_edgelist_live.
  pose proof (λ f Hf, getter_present st h e N M f Hh Hwf
                        (wf_field_mandatory st e N M f Hwf Hf)) as H.
  split; [|split].
  - exact (H Sources eq_refl).
  - exact (H Destinations eq_refl).
  - exact (H EdgeOffsets eq_refl).
Qed.

Lemma mandatory_getters_present_witness :
  wf_edgelist roundtrip_state roundtrip_handle 3 1 ∧
  returns_view (cugraph_edgelist_get_sources roundtrip_handle) roundtrip_state 3 ∧
  returns_view (cugraph_edgelist_get_destinations roundtrip_handle) roundtrip_state 3 ∧
  returns_view (cugraph_edgelist_get_edge_offsets roundtrip_handle) roundtrip_state (1 + 1).
Proof.
  split; [by_computation|].
  apply (mandatory_getters_present roundtrip_state roundtrip_handle 3 1).
  by_computation.
Defined.

(** C3. On a well-formed result, the accessor of an optional field hands
    out the sentinel exactly when the field of the container is null, and
    then changes nothing; otherwise it hands out a present View of the
    field's length [N], also when [N] is zero. *)
Theorem optional_getter_sentinel st h N M f :
  wf_edgelist st h N M → is_optional f = true →
  ∃ e v st',
    deref st h = Some (OEdgelist e) ∧
    getter f h st = Done v st' ∧
    (v = NULL ↔ field_ptr f e = nullptr) ∧
    (v = NULL → st' = st) ∧
    (v ≠ NULL → ∃ w, view_at st' v = Some w ∧ view_size_ w = N).
Proof.
  intros (e & Hh & Hwf)%wf_edgelist_live Hopt.
  destruct (getter_wf st h e N M f Hh Hwf) as
    [(_ & Hp & Hget)|(a & b & Hp & Ha & Hb & Hsz & _ & _ & Hget)].
  - exists e, NULL, st. split; [done|]. split; [done|].
    split; [done|]. split; [done|]. done.
  - exists e, (fresh_ptr (host st)), (with_view st a).
    pose proof (fresh_ptr_nonnull (host st)) as Hv. unfold nullptr in Hv.
    split; [done|]. split; [done|]. split; [split; [done|done]|].
    split; [done|]. intros _. exists (view_of a).
    split; [apply view_at_with_view|]. simpl. rewrite Hsz.
    by destruct f.
Qed.

Lemma optional_getter_sentinel_witness :
  wf_edgelist empty_weighted_state empty_weighted_handle 0 1 ∧
  is_optional EdgeWeights = true ∧
  ∃ e v st',
    deref empty_weighted_state empty_weighted_handle = Some (OEdgelist e) ∧
    getter EdgeWeights empty_weighted_handle empty_weighted_state = Done v st' ∧
    (v = NULL ↔ field_ptr EdgeWeights e = nullptr) ∧
    (v = NULL → st' = empty_weighted_state) ∧
    (v ≠ NULL → ∃ w, view_at st' v = Some w ∧ view_size_ w = 0).
Proof.
  split; [by_computation|]. split; [reflexivity|].
  apply (optional_getter_sentinel empty_weighted_state empty_weighted_handle 0 1
           EdgeWeights); [by_computation|reflexivity].
Defined.

(** A present, empty weight column is not reported as absent, and an
    absent column is not reported as an empty View. *)
Example empty_is_not_absent :
  returns_elems (cugraph_edgelist_get_edge_weights empty_weighted_handle)
                empty_weighted_state FLOAT32 [] ∧
  returns_absent (cugraph_edgelist_get_edge_ids empty_weighted_handle)
                 empty_weighted_state.
Proof.
  split; [|by vm_compute].
  eexists _, _, _. split; [by vm_compute|]. by vm_compute.
Qed.

(** ** Invalid handles *)

Lemma free_invalid st h : invalid_handle st h → cugraph_edgelist_free h st = Undefined.
Proof.
  intros Hinv. unfold cugraph_edgelist_free, bind.
  by rewrite (load_edgelist_invalid _ _ Hinv).
Qed.

(** C4, as the code has it. No operation of the accessor API checks its
    handle: on a handle that is null, dangling or of another type, and so
    on a handle that was already freed, each accessor and the destructor
    (a second free included) has undefined behaviour. *)
Theorem invalid_handle_undefined st h :
  (invalid_handle st h ∨
   ∃ st0 N M, wf_edgelist st0 h N M ∧ cugraph_edgelist_free h st0 = Done () st) →
  cugraph_edgelist_free h st = Undefined ∧
  ∀ f, getter f h st = Undefined.
Proof.
  intros H.
  assert (Hinv : invalid_handle st h).
  { destruct H as [?|(st0 & N & M & (e & Hh & Hwf)%wf_edgelist_live & Hfree)]; [done|].
    destruct (free_spec st0 h e N M Hh Hwf) as (st' & Hfree' & Hrel).
    rewrite Hfree in Hfree'. injection Hfree' as <-. by eapply released_invalid. }
  split; [by apply free_invalid|]. intros f. by apply getter_invalid.
Qed.

Lemma invalid_handle_undefined_witness :
  (invalid_handle freed_state roundtrip_handle ∨
   ∃ st0 N M, wf_edgelist st0 roundtrip_handle N M ∧
              cugraph_edgelist_free roundtrip_handle st0 = Done () freed_state) ∧
  cugraph_edgelist_free roundtrip_handle freed_state = Undefined ∧
  ∀ f, getter f roundtrip_handle freed_state = Undefined.
Proof.
  assert (H : ∃ st0 N M, wf_edgelist st0 roundtrip_handle N M ∧
              cugraph_edgelist_free roundtrip_handle st0 = Done () freed_state).
  { exists roundtrip_state, 3, 1. split; [by_computation|]. by vm_compute. }
  split; [by right|].
  apply (invalid_handle_undefined freed_state roundtrip_handle). by right.
Defined.

(** The claim C4 as the spec words it fails: the null handle is invalid,
    and no operation reports it; each one dereferences it. *)
Lemma null_handle_not_reported :
  invalid_handle (init_state 0) nullptr ∧
  cugraph_edgelist_free nullptr (init_state 0) = Undefined ∧
  Forall (λ f, getter f nullptr (init_state 0) = Undefined) all_fields ∧
  ¬ reports_invalid_handles.
Proof.
  split; [done|]. split; [done|]. split; [by repeat constructor|].
  intros H. by destruct (H (init_state 0) nullptr I) as [Hfree _].
Qed.

(** ** Accessors are reads *)

Lemma getter_preserves st h N M f :
  wf_edgelist st h N M →
  ∃ v st', getter f h st = Done v st' ∧ preserves st st'.
Proof.
  intros (e & Hh & Hwf)%wf_edgelist_live.
  destruct (getter_wf st h e N M f Hh Hwf) as
    [(_ & _ & Hget)|(a & b & _ & _ & _ & _ & _ & _ & Hget)].
  - exists NULL, st. split; [done|apply preserves_refl].
  - exists (fresh_ptr (host st)), (with_view st a).
    split; [done|apply with_view_preserves].
Qed.

Lemma run_getters_preserves fs h N M : ∀ st,
  wf_edgelist st h N M →
  ∃ vs st', run_getters fs h st = Done vs st' ∧ length vs = length fs ∧
            preserves st st'.
Proof.
  induction fs as [|f fs IH]; intros st Hwf; simpl.
  { exists [], st. split; [done|]. split; [done|apply preserves_refl]. }
  destruct (getter_preserves st h N M f Hwf) as (v & st1 & Hget & Hp1).
  destruct (IH st1 (wf_edgelist_preserved _ _ _ _ _ Hp1 Hwf)) as
    (vs & st' & Hrun & Hlen & Hp2).
  exists (v :: vs), st'. unfold bind, ret. rewrite Hget, Hrun.
  split; [done|]. split; [simpl; by rewrite Hlen|].
  by eapply preserves_trans.
Qed.

(** C8. On a well-formed result, any sequence of accessor calls returns
    and leaves every object and buffer that was there as it was: the
    container reads the same, each of its six fields designates the same
    array as before (or is null as before), device memory is unchanged,
    and the result is still well-formed. *)
Theorem getters_pure_reads st h N M fs :
  wf_edgelist st h N M →
  ∃ vs st',
    run_getters fs h st = Done vs st' ∧
    length vs = length fs ∧
    preserves st st' ∧
    deref st' h = deref st h ∧
    (∀ e f, deref st h = Some (OEdgelist e) →
            deref st' (field_ptr f e) = deref st (field_ptr f e)) ∧
    device st' = device st ∧
    wf_edgelist st' h N M.
Proof.
  intros Hwf.
  destruct (run_getters_preserves fs h N M st Hwf) as (vs & st' & Hrun & Hlen & Hp).
  exists vs, st'. split; [done|]. split; [done|]. split; [done|].
  pose proof Hwf as (e & Hh & Hwfc)%wf_edgelist_live.
  pose proof Hp as (Hpres & Hdev & _).
  split; [by rewrite Hh, (Hpres _ _ Hh)|].
  split; [|split; [done|by eapply wf_edgelist_preserved]].
  intros e' f He'. rewrite Hh in He'. injection He' as <-.
  destruct (wf_field st e N M f Hwfc) as [[_ ->]|Hok].
  - by rewrite !deref_nullptr.
  - apply array_ok_live in Hok as (a & b & Ha & _). by rewrite Ha, (Hpres _ _ Ha).
Qed.

Lemma getters_pure_reads_witness :
  wf_edgelist roundtrip_state roundtrip_handle 3 1 ∧
  ∃ vs st',
    run_getters [EdgeWeights; Sources; EdgeIds; Sources; EdgeOffsets]
                roundtrip_handle roundtrip_state = Done vs st' ∧
    length vs = 5%nat ∧
    preserves roundtrip_state st' ∧
    deref st' roundtrip_handle = deref roundtrip_state roundtrip_handle ∧
    (∀ e f, deref roundtrip_state roundtrip_handle = Some (OEdgelist e) →
            deref st' (field_ptr f e) = deref roundtrip_state (field_ptr f e)) ∧
    device st' = device roundtrip_state ∧
    wf_edgelist st' roundtrip_handle 3 1.
Proof.
  split; [by_computation|].
  apply (getters_pure_reads roundtrip_state roundtrip_handle 3 1
           [EdgeWeights; Sources; EdgeIds; Sources; EdgeOffsets]).
  by_computation.
Defined.

(** ** Accessors are deterministic *)

(** What a caller sees of an accessor is a function of what the field it
    reads designates. *)
Lemma observe_getter st h e f :
  deref st h = Some (OEdgelist e) →
  observe (getter f h st) = observation_of f (field_array st e f).
Proof.
  intros Hh. rewrite getter_unfold, Hh. unfold field_array, observation_of.
  case_decide as Hp.
  - rewrite bool_decide_eq_true_2 by done. rewrite andb_true_r.
    destruct (is_optional f); [done|].
    unfold array_view. by rewrite Hp, deref_nullptr.
  - rewrite bool_decide_eq_false_2 by done. rewrite andb_false_r.
    destruct (deref st (field_ptr f e)) as [[a| |]|] eqn:Ha;
      [|unfold array_view; by rewrite Ha..].
    rewrite (array_view_live _ _ _ Ha).
    unfold observe. rewrite decide_False by apply fresh_ptr_nonnull.
    by rewrite view_at_with_view.
Qed.

(** C10. On a well-formed result, two calls of the same accessor, one
    after the other, both hand out the sentinel, or both hand out a View
    with the same type, length and device address (and the first View is
    still there after the second call). What a caller sees of an accessor
    is determined by what the accessor's field designates: a call on any
    handle, in any state, whose field designates the same sees the same. *)
Theorem getter_deterministic st h N M f :
  wf_edgelist st h N M →
  (∃ v1 st1 v2 st2,
     getter f h st = Done v1 st1 ∧ getter f h st1 = Done v2 st2 ∧
     observe (getter f h st) = observe (getter f h st1) ∧
     ((v1 = NULL ∧ v2 = NULL) ∨
      (v1 ≠ NULL ∧ v2 ≠ NULL ∧
       ∃ w, view_at st1 v1 = Some w ∧ view_at st2 v2 = Some w ∧
            view_at st2 v1 = Some w))) ∧
  (∀ e st' h' e',
     deref st h = Some (OEdgelist e) → deref st' h' = Some (OEdgelist e') →
     field_array st' e' f = field_array st e f →
     observe (getter f h' st') = observe (getter f h st)).
Proof.
  intros Hwf. split.
  - pose proof Hwf as (e & Hh & Hwfc)%wf_edgelist_live.
    destruct (getter_wf st h e N M f Hh Hwfc) as
      [(_ & _ & Hget)|(a & b & Hp & Ha & _ & _ & _ & _ & Hget)].
    + exists NULL, st, NULL, st. rewrite Hget. split; [done|]. split; [done|].
      split; [done|]. by left.
    + set (st1 := with_view st a).
      pose proof (with_view_preserves st a) as Hp1. fold st1 in Hp1.
      pose proof Hp1 as (Hpres1 & _).
      pose proof (wf_edgelist_preserved _ _ _ _ _ Hp1 Hwf) as Hwf1.
      pose proof (Hpres1 _ _ Hh) as Hh1. pose proof (Hpres1 _ _ Ha) as Ha1.
      assert (Hget1 : getter f h st1 = Done (fresh_ptr (host st1)) (with_view st1 a)).
      { rewrite getter_unfold, Hh1, (bool_decide_eq_false_2 _ Hp), andb_false_r.
        by apply array_view_live. }
      exists (fresh_ptr (host st)), st1, (fresh_ptr (host st1)), (with_view st1 a).
      split; [done|]. split; [done|].
      split.
      { rewrite (observe_getter _ _ _ _ Hh), (observe_getter _ _ _ _ Hh1).
        unfold field_array. by rewrite Ha, Ha1. }
      right. split; [apply fresh_ptr_nonnull|]. split; [apply fresh_ptr_nonnull|].
      exists (view_of a). split; [apply view_at_with_view|].
      split; [apply view_at_with_view|].
      pose proof (with_view_preserves st1 a) as (Hpres2 & _).
      pose proof (view_at_with_view st a) as Hv. fold st1 in Hv.
      unfold view_at in Hv |- *.
      destruct (deref st1 (fresh_ptr (host st))) as [o|] eqn:Ho; [|done].
      by rewrite (Hpres2 _ _ Ho).
  - intros e st' h' e' Hh Hh' Hsame.
    by rewrite (observe_getter _ _ _ _ Hh), (observe_getter _ _ _ _ Hh'), Hsame.
Qed.

Lemma getter_deterministic_witness :
  wf_edgelist roundtrip_state roundtrip_handle 3 1 ∧
  (∃ v1 st1 v2 st2,
     getter EdgeWeights roundtrip_handle roundtrip_state = Done v1 st1 ∧
     getter EdgeWeights roundtrip_handle st1 = Done v2 st2 ∧
     observe (getter EdgeWeights roundtrip_handle roundtrip_state) =
       observe (getter EdgeWeights roundtrip_handle st1) ∧
     ((v1 = NULL ∧ v2 = NULL) ∨
      (v1 ≠ NULL ∧ v2 ≠ NULL ∧
       ∃ w, view_at st1 v1 = Some w ∧ view_at st2 v2 = Some w ∧
            view_at st2 v1 = Some w))) ∧
  (∀ e st' h' e',
     deref roundtrip_state roundtrip_handle = Some (OEdgelist e) →
     deref st' h' = Some (OEdgelist e') →
     field_array st' e' EdgeWeights = field_array roundtrip_state e EdgeWeights →
     observe (getter EdgeWeights h' st') =
       observe (getter EdgeWeights roundtrip_handle roundtrip_state)).
Proof.
  split; [by_computation|].
  apply (getter_deterministic roundtrip_state roundtrip_handle 3 1 EdgeWeights).
  by_computation.
Defined.

(** ** Construction *)

Lemma make_edgelist_extends c st h st' :
  make_edgelist c st = Done (Some h) st' → h ≠ NULL ∧ extends st st'.
Proof.
  intros Hmake.
  destruct (make_edgelist_made _ _ _ _ Hmake) as
    (e & Hh & HF & _ & _ & (Hgh & Hgd & Hgc) & Hhf).
  split; [by apply deref_Some in Hh as [? _]|].
  split; [|split; [|done]].
  - intros p o [Hp Ho]%deref_Some. apply deref_Some. split; [done|].
    rewrite Hgh; [done|]. intros [->|Hin]%elem_of_cons; [congruence|].
    pose proof (made_host_fresh _ _ _ _ _ HF Hin). congruence.
  - intros d b Hd. rewrite Hgd; [done|]. intros Hin.
    pose proof (made_buffer_fresh _ _ _ _ _ HF Hin). congruence.
Qed.

(** C7. Construction is all-or-nothing. Either it reports failure, returns
    no handle and leaves the state exactly as it was, every array made
    during the attempt having been released; or it returns a non-null
    handle to a well-formed result, every field made from its column,
    beside everything that was there before. Its behaviour is never
    undefined, and there is no third outcome. *)
Theorem construction_all_or_nothing c st N M :
  columns_ok c N M →
  make_edgelist c st = Done None st ∨
  ∃ h st' e,
    make_edgelist c st = Done (Some h) st' ∧
    h ≠ NULL ∧
    wf_edgelist st' h N M ∧
    deref st' h = Some (OEdgelist e) ∧
    Forall2 (made st st') (requests c) (fields_of e) ∧
    extends st st'.
Proof.
  intros Hok.
  destruct (make_edgelist_defined c st) as [?|(h & st' & Hmake)]; [by left|].
  right.
  destruct (make_edgelist_made _ _ _ _ Hmake) as (e & Hh & HF & _).
  destruct (make_edgelist_extends _ _ _ _ Hmake) as (Hnn & Hext).
  exists h, st', e. split; [done|]. split; [done|].
  split; [by eapply make_edgelist_wf|]. by split.
Qed.

(** A device of 30 bytes holds the sources and the destinations of the
    round-trip scenario (12 bytes each) but not the weights as well: the
    construction fails after two arrays were made, and gives them back. *)
Lemma construction_all_or_nothing_witness :
  columns_ok roundtrip_columns 3 1 ∧
  (make_edgelist roundtrip_columns (init_state 30) = Done None (init_state 30) ∨
   ∃ h st' e,
     make_edgelist roundtrip_columns (init_state 30) = Done (Some h) st' ∧
     h ≠ NULL ∧
     wf_edgelist st' h 3 1 ∧
     deref st' h = Some (OEdgelist e) ∧
     Forall2 (made (init_state 30) st') (requests roundtrip_columns) (fields_of e) ∧
     extends (init_state 30) st').
Proof.
  split; [by_computation|].
  apply (construction_all_or_nothing roundtrip_columns (init_state 30) 3 1).
  by_computation.
Defined.

Example construction_fails_midway :
  (∃ p st1, new_arrays [Some (col_sources roundtrip_columns);
                        Some (col_destinations roundtrip_columns)]
                       (init_state 30) = Done (Some p) st1 ∧
            size (device st1) = 2%nat) ∧
  make_edgelist roundtrip_columns (init_state 30) = Done None (init_state 30).
Proof. split; [|by vm_compute]. eexists _, _. split; by vm_compute. Qed.

(** C5. The result of an extraction of [M] subgraphs with [N] edges in
    all is well-formed, and its offsets array, which the accessor of the
    offsets hands out, has [M + 1] elements, starts with 0, ends with [N]
    and is non-decreasing. *)
Theorem produced_offsets_invariant ts gs st h st' :
  extract_subgraphs ts gs st = Done (Some h) st' →
  let N := Z.of_nat (length (concat gs)) in
  let M := Z.of_nat (length gs) in
  ∃ e offs,
    deref st' h = Some (OEdgelist e) ∧
    wf_container st' e N M ∧
    offsets_elems st' e = offs ∧
    returns_elems (cugraph_edgelist_get_edge_offsets h) st' SIZE_T offs ∧
    Z.of_nat (length offs) = M + 1 ∧
    offs !! 0%nat = Some 0 ∧
    offs !! length gs = Some N ∧
    ∀ (i j : nat) x y,
      (i ≤ j)%nat → offs !! i = Some x → offs !! j = Some y → x ≤ y.
Proof.
  intros Hmake N M. unfold extract_subgraphs in Hmake.
  pose proof (make_edgelist_wf _ _ _ _ N M (pack_ok ts gs) Hmake) as Hwf.
  destruct (make_edgelist_made _ _ _ _ Hmake) as (e & Hh & HF & _).
  unfold wf_edgelist in Hwf. rewrite Hh in Hwf.
  assert (Hmo : made st st' (Some (DeviceBuffer SIZE_T (offsets_from 0 gs)))
                     (field_ptr EdgeOffsets e)).
  { unfold requests, fields_of in HF.
    do 5 apply Forall2_cons in HF as [_ HF]. by apply Forall2_cons in HF as [? _]. }
  assert (Hoff : offsets_elems st' e = offsets_from 0 gs).
  { unfold offsets_elems. destruct (made_elems _ _ _ _ Hmo) as (d & Hb & Hd).
    simpl in Hb. by rewrite Hb, Hd. }
  exists e, (offsets_from 0 gs).
  split; [done|]. split; [done|]. split; [done|].
  split; [exact (getter_made st st' h e EdgeOffsets _ Hh Hmo)|].
  split; [rewrite offsets_from_length; lia|].
  split; [by destruct gs|].
  split; [apply offsets_from_lookup; split; [done|]; rewrite firstn_all; lia|].
  intros i j x y. apply offsets_from_mono.
Qed.

Lemma produced_offsets_invariant_witness :
  extract_subgraphs plain_types two_subgraphs (init_state 1024) =
    Done (Some two_subgraphs_handle) two_subgraphs_state ∧
  ∃ e offs,
    deref two_subgraphs_state two_subgraphs_handle = Some (OEdgelist e) ∧
    wf_container two_subgraphs_state e 5 2 ∧
    offsets_elems two_subgraphs_state e = offs ∧
    returns_elems (cugraph_edgelist_get_edge_offsets two_subgraphs_handle)
                  two_subgraphs_state SIZE_T offs ∧
    Z.of_nat (length offs) = 2 + 1 ∧
    offs !! 0%nat = Some 0 ∧
    offs !! 2%nat = Some 5 ∧
    ∀ (i j : nat) x y,
      (i ≤ j)%nat → offs !! i = Some x → offs !! j = Some y → x ≤ y.
Proof.
  split; [by vm_compute|].
  apply (produced_offsets_invariant plain_types two_subgraphs (init_state 1024)
           two_subgraphs_handle two_subgraphs_state).
  by vm_compute.
Defined.

(** Two subgraphs, of two and of three edges: the offsets are 0, 2, 5. *)
Example two_subgraphs_offsets :
  returns_elems (cugraph_edgelist_get_edge_offsets two_subgraphs_handle)
                two_subgraphs_state SIZE_T [0; 2; 5] ∧
  returns_elems (cugraph_edgelist_get_sources two_subgraphs_handle)
                two_subgraphs_state INT32 [0; 1; 5; 6; 7].
Proof. split; eexists _, _, _; (split; [by vm_compute|]); by vm_compute. Qed.

(** C6. The round-trip scenario: a result made from sources 0, 1, 2,
    destinations 1, 2, 0, weights 1.0, 2.0, 3.0 and offsets 0, 3, without
    edge ids and without edge types, hands out Views of these sources,
    destinations and weights, and the sentinel for the edge ids and for
    the edge types. *)
Theorem roundtrip_scenario st h st' :
  make_edgelist roundtrip_columns st = Done (Some h) st' →
  returns_elems (cugraph_edgelist_get_sources h) st' INT32 [0; 1; 2] ∧
  returns_elems (cugraph_edgelist_get_destinations h) st' INT32 [1; 2; 0] ∧
  returns_elems (cugraph_edgelist_get_edge_weights h) st' FLOAT32
                [float32_1; float32_2; float32_3] ∧
  returns_absent (cugraph_edgelist_get_edge_ids h) st' ∧
  returns_absent (cugraph_edgelist_get_edge_type_ids h) st'.
Proof.
  intros Hmake.
  destruct (make_edgelist_made _ _ _ _ Hmake) as (e & Hh & HF & _).
  unfold requests, fields_of in HF. simpl in HF.
  apply Forall2_cons in HF as [Hms HF]. apply Forall2_cons in HF as [Hmd HF].
  apply Forall2_cons in HF as [Hmw HF]. apply Forall2_cons in HF as [Hmi HF].
  apply Forall2_cons in HF as [Hmt _].
  split; [exact (getter_made st st' h e Sources _ Hh Hms)|].
  split; [exact (getter_made st st' h e Destinations _ Hh Hmd)|].
  split; [exact (getter_made st st' h e EdgeWeights _ Hh Hmw)|].
  split; [exact (getter_not_made st st' h e EdgeIds Hh eq_refl Hmi)|].
  exact (getter_not_made st st' h e EdgeTypeIds Hh eq_refl Hmt).
Qed.

Lemma roundtrip_scenario_witness :
  make_edgelist roundtrip_columns (init_state 1024) =
    Done (Some roundtrip_handle) roundtrip_state ∧
  returns_elems (cugraph_edgelist_get_sources roundtrip_handle) roundtrip_state
                INT32 [0; 1; 2] ∧
  returns_elems (cugraph_edgelist_get_destinations roundtrip_handle) roundtrip_state
                INT32 [1; 2; 0] ∧
  returns_elems (cugraph_edgelist_get_edge_weights roundtrip_handle) roundtrip_state
                FLOAT32 [float32_1; float32_2; float32_3] ∧
  returns_absent (cugraph_edgelist_get_edge_ids roundtrip_handle) roundtrip_state ∧
  returns_absent (cugraph_edgelist_get_edge_type_ids roundtrip_handle) roundtrip_state.
Proof.
  split; [by vm_compute|].
  apply (roundtrip_scenario (init_state 1024) roundtrip_handle roundtrip_state).
  by vm_compute.
Defined.

(** * Further properties of the accessor API *)

(** ** When the destructor is defined *)

Lemma delete_array_inv st p st1 :
  delete_array p st = Done () st1 →
  (p = nullptr ∧ st1 = st) ∨
  (p ≠ nullptr ∧ ∃ a b,
     host st !! p = Some (OArray a) ∧ device st !! data_ a = Some b ∧
     st1 = State (delete p (host st)) (delete (data_ a) (device st))
                 (device_capacity st)).
Proof.
  unfold delete_array. case_decide as Hp; [intros [= <-]; by left|].
  destruct (host st !! p) as [[a| |]|] eqn:Ha; try done.
  destruct (device st !! data_ a) as [b|] eqn:Hb; [|done].
  intros [= <-]. right. split; [done|]. by exists a, b.
Qed.

(** If the arrays [ps] can be deleted once the live array [p] is gone,
    then [p] and [ps] can be deleted from the start. *)
Lemma releasable_unstep st p a b ps :
  p ≠ nullptr → host st !! p = Some (OArray a) → device st !! data_ a = Some b →
  releasable (State (delete p (host st)) (delete (data_ a) (device st))
                    (device_capacity st)) ps →
  releasable st (p :: ps).
Proof.
  intros Hp Ha Hb. set (st1 := State _ _ _). intros (Hall & Hnd & Hndb).
  rewrite Forall_forall in Hall.
  assert (Hlive : ∀ q, q ∈ ps → q ≠ nullptr →
            q ≠ p ∧ ∃ a', host st !! q = Some (OArray a') ∧
                          data_ a' ≠ data_ a ∧ is_Some (device st !! data_ a')).
  { intros q Hq Hq0. destruct (Hall q Hq) as [?|(a' & Ha' & Hb')]; [done|].
    simpl in Ha', Hb'.
    apply lookup_delete_Some in Ha' as [Hne Ha'].
    apply lookup_delete_is_Some in Hb' as [Hneb Hb'].
    split; [done|]. by exists a'. }
  assert (Hbuf : omap (buffer_of st) ps = omap (buffer_of st1) ps).
  { apply omap_ext_elem. intros q Hq. unfold buffer_of, deref.
    case_decide as Hq0; [done|]. simpl.
    destruct (Hlive q Hq Hq0) as (Hne & _). by rewrite lookup_delete_ne. }
  split; [|split].
  - apply Forall_cons. split.
    + right. exists a. by rewrite Hb.
    + apply Forall_forall. intros q Hq.
      destruct (decide (q = nullptr)) as [?|Hq0]; [by left|].
      destruct (Hlive q Hq Hq0) as (_ & a' & Ha' & _ & Hb'). right. by exists a'.
  - rewrite filter_cons_True by done. apply NoDup_cons. split; [|done].
    intros [Hp0 Hin]%list_elem_of_filter.
    by destruct (Hlive p Hin Hp0) as (? & _).
  - rewrite omap_buffer_of_cons, (buffer_of_live _ _ _ Hp Ha), Hbuf.
    apply NoDup_cons. split; [|done].
    intros (q & Hq & Hbq)%list_elem_of_omap.
    apply buffer_of_Some in Hbq as (Hq0 & a' & Ha' & Heq).
    destruct (Hlive q Hq Hq0) as (Hne & a'' & Ha'' & Hda & _).
    simpl in Ha'. rewrite lookup_delete_ne in Ha' by done.
    rewrite Ha'' in Ha'. injection Ha' as ->. done.
Qed.

Lemma releasable_cons_nullptr st ps :
  releasable st ps → releasable st (nullptr :: ps).
Proof.
  intros (Hall & Hnd & Hndb). split; [|split].
  - apply Forall_cons. split; [by left|done].
  - by rewrite filter_cons_False by (by intros ?).
  - by rewrite omap_buffer_of_cons, buffer_of_nullptr.
Qed.

(** If the statements that delete the fields [fs], and what follows
    them, all run, the arrays of those fields were deletable. *)
Lemma delete_fields_inv h e rest fs : ∀ st st',
  deref st h = Some (OEdgelist e) →
  delete_fields fs h rest st = Done () st' →
  releasable st ((λ f, field_ptr f e) <$> fs).
Proof.
  induction fs as [|f fs IH]; intros st st' Hh Hrun.
  { split; [constructor|]. split; constructor. }
  change (delete_fields (f :: fs) h rest st)
    with (bind (delete_field f h) (λ _, delete_fields fs h rest) st) in Hrun.
  unfold bind at 1, delete_field, bind at 1 in Hrun.
  rewrite (load_edgelist_live _ _ _ Hh) in Hrun.
  rewrite fmap_cons. cbn beta.
  destruct (delete_array (field_ptr f e) st) as [[] st1|] eqn:Hdel; [|done].
  apply delete_array_inv in Hdel as [[Hp ->]|(Hp & a & b & Ha & Hb & ->)].
  - rewrite Hp. apply releasable_cons_nullptr. by eapply IH.
  - apply (releasable_unstep _ _ a b); [done..|].
    eapply IH; [|exact Hrun].
    apply deref_Some in Hh as [Hh0 Hh]. apply deref_Some. split; [done|].
    simpl. rewrite lookup_delete_ne; [done|]. intros Heq.
    rewrite Heq in Ha. congruence.
Qed.

Lemma free_inv st h st' :
  cugraph_edgelist_free h st = Done () st' →
  ∃ e, deref st h = Some (OEdgelist e) ∧ releasable st (fields_of e).
Proof.
  intros Hfree.
  destruct (deref st h) as [[a|v|e]|] eqn:Hh;
    try (rewrite free_invalid in Hfree; [done|];
         unfold invalid_handle; by rewrite Hh).
  exists e. split; [done|]. rewrite fields_of_all.
  rewrite free_unfold in Hfree. by eapply delete_fields_inv.
Qed.


Lemma all_fields_complete f : f ∈ all_fields.
Proof. destruct f; unfold all_fields; set_solver. Qed.

Lemma NoDup_filter_fmap_inj {A} (P : Z → Prop) `{∀ x, Decision (P x)}
    (F : A → Z) (l : list A) f g :
  NoDup (filter P (F <$> l)) → f ∈ l → g ∈ l → f ≠ g → F f = F g → P (F f) →
  False.
Proof.
  intros Hnd Hf Hg Hne Heq HP.
  induction l as [|x l IH]; [by apply elem_of_nil in Hf|].
  rewrite fmap_cons in Hnd.
  assert (Hin : ∀ y, y ∈ l → F y = F f → F y ∈ filter P (F <$> l)).
  { intros y Hy Hy'. apply list_elem_of_filter. split; [by rewrite Hy'|].
    apply list_elem_of_fmap. by exists y. }
  apply elem_of_cons in Hf as [->|Hf]; apply elem_of_cons in Hg as [->|Hg].
  - done.
  - rewrite filter_cons_True in Hnd by done.
    apply NoDup_cons in Hnd as [Hnin _]. apply Hnin. rewrite Heq. by apply Hin.
  - rewrite filter_cons_True in Hnd by (by rewrite <- Heq).
    apply NoDup_cons in Hnd as [Hnin _]. apply Hnin. rewrite <- Heq. by apply Hin.
  - apply IH; [|done..]. rewrite filter_cons in Hnd.
    case_decide; [by apply NoDup_cons in Hnd as [_ ?]|done].
Qed.

(** X2. The destructor deletes each field without looking at the others:
    on a container two of whose fields hold the same non-null pointer the
    array would be deleted twice, and the behaviour of
    [cugraph_edgelist_free] is undefined. *)
Theorem free_aliased_undefined st h e f g :
  deref st h = Some (OEdgelist e) →
  f ≠ g → field_ptr f e = field_ptr g e → field_ptr f e ≠ nullptr →
  cugraph_edgelist_free h st = Undefined.
Proof.
  intros Hh Hne Heq Hp.
  destruct (cugraph_edgelist_free h st) as [[] st'|] eqn:Hfree; [|done].
  exfalso.
  destruct (free_inv _ _ _ Hfree) as (e' & Hh' & _ & Hnd & _).
  rewrite Hh in Hh'. injection Hh' as <-. rewrite fields_of_all in Hnd.
  by eapply (NoDup_filter_fmap_inj _ (λ f, field_ptr f e) all_fields f g);
    eauto using all_fields_complete.
Qed.

Lemma free_aliased_undefined_witness :
  deref aliased_state 3 = Some (OEdgelist aliased_container) ∧
  Sources ≠ Destinations ∧
  field_ptr Sources aliased_container = field_ptr Destinations aliased_container ∧
  field_ptr Sources aliased_container ≠ nullptr ∧
  cugraph_edgelist_free 3 aliased_state = Undefined.
Proof.
  assert (H1 : deref aliased_state 3 = Some (OEdgelist aliased_container))
    by (by vm_compute).
  assert (H2 : Sources ≠ Destinations) by discriminate.
  assert (H3 : field_ptr Sources aliased_container =
               field_ptr Destinations aliased_container) by reflexivity.
  assert (H4 : field_ptr Sources aliased_container ≠ nullptr) by (by vm_compute).
  repeat (split; [assumption|]).
  exact (free_aliased_undefined aliased_state 3 aliased_container
           Sources Destinations H1 H2 H3 H4).
Defined.

(** ** Results that live together *)

Lemma owned_field e p : p ∈ owned e → p ≠ nullptr ∧ ∃ f, p = field_ptr f e.
Proof.
  intros [Hp Hin]%list_elem_of_filter. split; [done|].
  rewrite fields_of_all in Hin. apply list_elem_of_fmap in Hin as (f & -> & _).
  by exists f.
Qed.

Lemma field_buffer_owned st e f d :
  buffer_of st (field_ptr f e) = Some d → d ∈ owned_buffers st e.
Proof.
  intros Hb. apply list_elem_of_omap. exists (field_ptr f e). split; [|done].
  rewrite fields_of_all. apply list_elem_of_fmap. exists f.
  split; [done|apply all_fields_complete].
Qed.

(** Well-formedness looks only at the fields of the container and at the
    buffers of its arrays. *)
Lemma wf_container_agree st st' e N M :
  wf_container st e N M →
  (∀ f, deref st' (field_ptr f e) = deref st (field_ptr f e)) →
  (∀ d, d ∈ owned_buffers st e → device st' !! d = device st !! d) →
  wf_container st' e N M.
Proof.
  intros Hwf Hderef Hdev.
  assert (Hbuf : ∀ f, buffer_of st' (field_ptr f e) = buffer_of st (field_ptr f e)).
  { intros f. unfold buffer_of. by rewrite Hderef. }
  assert (Hok : ∀ f n, array_ok st n (field_ptr f e) → array_ok st' n (field_ptr f e)).
  { intros f n Hok. unfold array_ok in *. rewrite Hderef.
    destruct (deref st (field_ptr f e)) as [[a| |]|] eqn:Ha; try done.
    rewrite Hdev; [done|]. apply (field_buffer_owned st e f).
    unfold buffer_of. by rewrite Ha. }
  assert (Hopt : ∀ f n, opt_array_ok st n (field_ptr f e) →
                        opt_array_ok st' n (field_ptr f e)).
  { intros f n. unfold opt_array_ok. case_decide; [done|apply Hok]. }
  assert (Hob : owned_buffers st' e = owned_buffers st e).
  { unfold owned_buffers. rewrite fields_of_all.
    apply omap_ext_elem. intros p (f & -> & _)%list_elem_of_fmap. apply Hbuf. }
  assert (Hoff : offsets_elems st' e = offsets_elems st e).
  { unfold offsets_elems. pose proof (Hbuf EdgeOffsets) as Hb. simpl in Hb.
    rewrite Hb. destruct (buffer_of st (subgraph_offsets_ e)) as [d|] eqn:Hd; [|done].
    rewrite Hdev; [done|]. by apply (field_buffer_owned st e EdgeOffsets). }
  destruct Hwf as [Hs Hd Hw Hi Ht Ho Hn Hnb Hf Hl Hsorted].
  split; rewrite ?Hoff, ?Hob; try done.
  - exact (Hok Sources _ Hs).
  - exact (Hok Destinations _ Hd).
  - exact (Hopt EdgeWeights _ Hw).
  - exact (Hopt EdgeIds _ Hi).
  - exact (Hopt EdgeTypeIds _ Ht).
  - exact (Hok EdgeOffsets _ Ho).
Qed.

Lemma wf_field_array st e N M p :
  wf_container st e N M → p ∈ owned e → ∃ a, host st !! p = Some (OArray a).
Proof.
  intros Hwf (Hp & f & ->)%owned_field.
  destruct (wf_field st e N M f Hwf) as [[_ ?]|Hok]; [done|].
  apply array_ok_live in Hok as (a & b & [_ Ha]%deref_Some & _). by exists a.
Qed.

(** Freeing one of two separate well-formed results: what is released,
    and what the other result keeps. *)
Lemma free_frame_other st h1 h2 e1 e2 N1 M1 N2 M2 :
  deref st h1 = Some (OEdgelist e1) → wf_container st e1 N1 M1 →
  deref st h2 = Some (OEdgelist e2) → wf_container st e2 N2 M2 →
  Forall (λ p, p ∉ owned e2) (owned e1) →
  Forall (λ d, d ∉ owned_buffers st e2) (owned_buffers st e1) →
  ∃ st',
    cugraph_edgelist_free h1 st = Done () st' ∧
    released (h1 :: owned e1) (owned_buffers st e1) st st' ∧
    deref st' h2 = Some (OEdgelist e2) ∧
    (∀ f, deref st' (field_ptr f e2) = deref st (field_ptr f e2)) ∧
    wf_container st' e2 N2 M2 ∧
    owned_buffers st' e2 = owned_buffers st e2.
Proof.
  intros Hh1 Hwf1 Hh2 Hwf2 Hsp Hsd.
  rewrite Forall_forall in Hsp. rewrite Forall_forall in Hsd.
  destruct (free_spec st h1 e1 N1 M1 Hh1 Hwf1) as (st' & Hfree & Hrel).
  pose proof Hrel as (Hho & Hde & _).
  pose proof Hh1 as [Hh10 Hh1']%deref_Some.
  pose proof Hh2 as [Hh20 Hh2']%deref_Some.
  assert (Hkeep : ∀ q, q ∉ h1 :: owned e1 → deref st' q = deref st q).
  { intros q Hq. unfold deref. case_decide; [done|]. by rewrite Hho, decide_False. }
  assert (Hh2k : deref st' h2 = Some (OEdgelist e2)).
  { rewrite Hkeep; [done|]. intros [->|Hin]%elem_of_cons.
    - rewrite Hh1 in Hh2. injection Hh2 as ->.
      pose proof (field_ptr_owned e2 Sources
                    (wf_field_mandatory _ _ _ _ Sources Hwf2 eq_refl)) as Hsrc.
      by apply (Hsp _ Hsrc).
    - destruct (wf_field_array _ _ _ _ _ Hwf1 Hin) as (a & Ha). congruence. }
  assert (Hfields : ∀ f, deref st' (field_ptr f e2) = deref st (field_ptr f e2)).
  { intros f. destruct (decide (field_ptr f e2 = nullptr)) as [->|Hp].
    - by rewrite !deref_nullptr.
    - pose proof (field_ptr_owned e2 f Hp) as Hin2.
      apply Hkeep. intros [Heq|Hin]%elem_of_cons.
      + destruct (wf_field_array _ _ _ _ _ Hwf2 Hin2) as (a & Ha).
        rewrite Heq in Ha. congruence.
      + by apply (Hsp _ Hin). }
  exists st'. split; [done|]. split; [done|]. split; [done|]. split; [done|].
  split.
  - apply (wf_container_agree st); [done..|].
    intros d Hd. rewrite Hde, decide_False; [done|].
    intros Hd1. by apply (Hsd _ Hd1).
  - unfold owned_buffers. apply omap_ext_elem.
    intros p Hp. rewrite fields_of_all in Hp.
    apply list_elem_of_fmap in Hp as (f & -> & _).
    unfold buffer_of. by rewrite Hfields.
Qed.

(** X3. Freeing one well-formed result leaves another one, which shares no
    array and no buffer with it, well-formed, and each accessor shows of
    it what it showed before. *)
Theorem free_keeps_other_result st h1 h2 N1 M1 N2 M2 :
  wf_edgelist st h1 N1 M1 → wf_edgelist st h2 N2 M2 → separate st h1 h2 →
  ∃ st',
    cugraph_edgelist_free h1 st = Done () st' ∧
    wf_edgelist st' h2 N2 M2 ∧
    ∀ f, observe (getter f h2 st') = observe (getter f h2 st).
Proof.
  intros (e1 & Hh1 & Hwf1)%wf_edgelist_live (e2 & Hh2 & Hwf2)%wf_edgelist_live Hsep.
  unfold separate in Hsep. rewrite Hh1, Hh2 in Hsep. destruct Hsep as [Hsp Hsd].
  destruct (free_frame_other st h1 h2 e1 e2 N1 M1 N2 M2 Hh1 Hwf1 Hh2 Hwf2 Hsp Hsd)
    as (st' & Hfree & _ & Hh2k & Hfields & Hwf2' & _).
  exists st'. split; [done|]. split.
  - unfold wf_edgelist. by rewrite Hh2k.
  - intros f. rewrite (observe_getter _ _ _ _ Hh2k), (observe_getter _ _ _ _ Hh2).
    unfold field_array. by rewrite Hfields.
Qed.

Lemma free_keeps_other_result_witness :
  wf_edgelist two_results_state roundtrip_handle 3 1 ∧
  wf_edgelist two_results_state second_handle 0 1 ∧
  separate two_results_state roundtrip_handle second_handle ∧
  ∃ st',
    cugraph_edgelist_free roundtrip_handle two_results_state = Done () st' ∧
    wf_edgelist st' second_handle 0 1 ∧
    ∀ f, observe (getter f second_handle st') =
         observe (getter f second_handle two_results_state).
Proof.
  assert (H1 : wf_edgelist two_results_state roundtrip_handle 3 1) by by_computation.
  assert (H2 : wf_edgelist two_results_state second_handle 0 1) by by_computation.
  assert (H3 : separate two_results_state roundtrip_handle second_handle)
    by by_computation.
  repeat (split; [assumption|]).
  exact (free_keeps_other_result two_results_state roundtrip_handle second_handle
           3 1 0 1 H1 H2 H3).
Defined.

(** ** Views and the destructor *)

(** X4. A View handed out by an accessor is not owned by the result:
    [cugraph_edgelist_free] does not release it, and after the free the
    View is still a host object with the same type, length and address,
    but the device buffer at that address, which was live before, is
    gone. *)
Theorem free_leaves_views_dangling st h N M f v st1 :
  wf_edgelist st h N M → getter f h st = Done v st1 → v ≠ NULL →
  ∃ st2 w,
    cugraph_edgelist_free h st1 = Done () st2 ∧
    view_at st1 v = Some w ∧ is_Some (device st1 !! view_data_ w) ∧
    view_at st2 v = Some w ∧ device st2 !! view_data_ w = None ∧
    view_elems st2 v = None.
Proof.
  intros Hwf Hget Hv.
  pose proof Hwf as (e & Hh & Hwfc)%wf_edgelist_live.
  destruct (getter_wf st h e N M f Hh Hwfc) as
    [(_ & _ & Hget')|(a & b & Hp & Ha & Hb & _ & _ & _ & Hget')];
    rewrite Hget' in Hget; injection Hget as <- <-; [done|].
  set (st1 := with_view st a). set (v := fresh_ptr (host st)).
  pose proof (with_view_preserves st a) as Hpres. fold st1 in Hpres.
  pose proof Hpres as (Hkeep & Hdev & _).
  pose proof (wf_container_preserved _ _ _ _ _ Hpres Hwfc) as Hwfc1.
  destruct (free_spec st1 h e N M (Hkeep _ _ Hh) Hwfc1) as (st2 & Hfree & Hho & Hde & _).
  pose proof (view_at_with_view st a) as Hview. fold st1 v in Hview.
  assert (Hv2 : view_at st2 v = Some (view_of a)).
  { unfold view_at, deref in Hview |- *. case_decide; [done|].
    rewrite Hho, decide_False; [done|].
    intros [Heq|Hin]%elem_of_cons.
    - apply deref_Some in Hh as [_ Hh]. rewrite <- Heq in Hh.
      unfold v in Hh. by rewrite fresh_ptr_fresh in Hh.
    - destruct (wf_field_array _ _ _ _ _ Hwfc Hin) as (a' & Ha').
      unfold v in Ha'. by rewrite fresh_ptr_fresh in Ha'. }
  assert (Hgone : device st2 !! data_ a = None).
  { rewrite Hde. apply decide_True. apply (field_buffer_owned st1 e f).
    unfold buffer_of. by rewrite (Hkeep _ _ Ha). }
  exists st2, (view_of a). split; [done|]. split; [done|].
  split; [simpl; rewrite Hb; by eexists|].
  split; [done|]. split; [done|].
  unfold view_elems. rewrite Hv2. simpl. by rewrite Hgone.
Qed.

Lemma free_leaves_views_dangling_witness :
  wf_edgelist roundtrip_state roundtrip_handle 3 1 ∧
  getter Sources roundtrip_handle roundtrip_state =
    Done 6 (with_view roundtrip_state (DeviceArray 3 1 INT32)) ∧
  6 ≠ NULL ∧
  ∃ st2 w,
    cugraph_edgelist_free roundtrip_handle
      (with_view roundtrip_state (DeviceArray 3 1 INT32)) = Done () st2 ∧
    view_at (with_view roundtrip_state (DeviceArray 3 1 INT32)) 6 = Some w ∧
    is_Some (device (with_view roundtrip_state (DeviceArray 3 1 INT32)) !! view_data_ w) ∧
    view_at st2 6 = Some w ∧ device st2 !! view_data_ w = None ∧
    view_elems st2 6 = None.
Proof.
  assert (H1 : wf_edgelist roundtrip_state roundtrip_handle 3 1) by by_computation.
  assert (H2 : getter Sources roundtrip_handle roundtrip_state =
               Done 6 (with_view roundtrip_state (DeviceArray 3 1 INT32)))
    by (by vm_compute).
  assert (H3 : 6 ≠ NULL) by discriminate.
  repeat (split; [assumption|]).
  exact (free_leaves_views_dangling roundtrip_state roundtrip_handle 3 1 Sources 6
           _ H1 H2 H3).
Defined.

(** X5. Accessor calls do not get in the way of the destructor: after any
    sequence of accessor calls on a well-formed result,
    [cugraph_edgelist_free] returns, device memory is then exactly what an
    immediate free would have left, and every host object an immediate
    free would have left is there, unchanged. *)
Theorem free_after_getters st h N M fs :
  wf_edgelist st h N M →
  ∃ vs st1 st2 st0,
    run_getters fs h st = Done vs st1 ∧
    cugraph_edgelist_free h st1 = Done () st2 ∧
    cugraph_edgelist_free h st = Done () st0 ∧
    device st2 = device st0 ∧
    invalid_handle st2 h ∧
    ∀ p o, deref st0 p = Some o → deref st2 p = Some o.
Proof.
  intros Hwf.
  pose proof Hwf as (e & Hh & Hwfc)%wf_edgelist_live.
  destruct (run_getters_preserves fs h N M st Hwf) as (vs & st1 & Hrun & _ & Hpres).
  pose proof Hpres as (Hkeep & Hdev & _).
  pose proof (wf_container_preserved _ _ _ _ _ Hpres Hwfc) as Hwfc1.
  destruct (free_spec st1 h e N M (Hkeep _ _ Hh) Hwfc1) as (st2 & Hfree1 & Hrel1).
  destruct (free_spec st h e N M Hh Hwfc) as (st0 & Hfree0 & Hho0 & Hde0 & _).
  pose proof Hrel1 as (Hho1 & Hde1 & _).
  exists vs, st1, st2, st0. split; [done|]. split; [done|]. split; [done|].
  split; [|split; [by eapply released_invalid|]].
  - apply map_eq. intros d.
    by rewrite Hde1, Hde0, (owned_buffers_preserved _ _ _ _ _ Hpres Hwfc), Hdev.
  - intros p o [Hp Ho]%deref_Some. rewrite Hho0 in Ho.
    case_decide as Hin; [done|].
    pose proof (Hkeep p o (proj2 (deref_Some _ _ _) (conj Hp Ho))) as [_ Ho1]%deref_Some.
    apply deref_Some. split; [done|]. by rewrite Hho1, decide_False.
Qed.

Lemma free_after_getters_witness :
  wf_edgelist roundtrip_state roundtrip_handle 3 1 ∧
  ∃ vs st1 st2 st0,
    run_getters [EdgeWeights; Sources; EdgeIds] roundtrip_handle roundtrip_state =
      Done vs st1 ∧
    cugraph_edgelist_free roundtrip_handle st1 = Done () st2 ∧
    cugraph_edgelist_free roundtrip_handle roundtrip_state = Done () st0 ∧
    device st2 = device st0 ∧
    invalid_handle st2 roundtrip_handle ∧
    ∀ p o, deref st0 p = Some o → deref st2 p = Some o.
Proof.
  assert (H1 : wf_edgelist roundtrip_state roundtrip_handle 3 1) by by_computation.
  split; [assumption|].
  exact (free_after_getters roundtrip_state roundtrip_handle 3 1
           [EdgeWeights; Sources; EdgeIds] H1).
Defined.

(** X6. An accessor's answer does not depend on the accessor calls made
    before it: after any sequence of accessor calls on a well-formed
    result, each accessor shows what it would have shown at the start. *)
Theorem getter_after_getters st h N M fs f :
  wf_edgelist st h N M →
  ∃ vs st1,
    run_getters fs h st = Done vs st1 ∧
    observe (getter f h st1) = observe (getter f h st) ∧
    observe (getter f h st) ≠ ObsUndefined.
Proof.
  intros Hwf.
  pose proof Hwf as (e & Hh & Hwfc)%wf_edgelist_live.
  destruct (run_getters_preserves fs h N M st Hwf) as (vs & st1 & Hrun & _ & Hpres).
  pose proof Hpres as (Hkeep & _).
  exists vs, st1. split; [done|].
  rewrite (observe_getter _ _ _ _ Hh), (observe_getter _ _ _ _ (Hkeep _ _ Hh)).
  unfold field_array.
  destruct (wf_field st e N M f Hwfc) as [[Hopt Hnull]|Hok].
  - rewrite !decide_True by done. simpl. by rewrite Hopt.
  - apply array_ok_live in Hok as (a & b & Ha & _).
    pose proof Ha as [Hp _]%deref_Some.
    rewrite !decide_False by done. by rewrite Ha, (Hkeep _ _ Ha).
Qed.

Lemma getter_after_getters_witness :
  wf_edgelist roundtrip_state roundtrip_handle 3 1 ∧
  ∃ vs st1,
    run_getters [EdgeOffsets; EdgeWeights; EdgeWeights] roundtrip_handle
                roundtrip_state = Done vs st1 ∧
    observe (getter Sources roundtrip_handle st1) =
      observe (getter Sources roundtrip_handle roundtrip_state) ∧
    observe (getter Sources roundtrip_handle roundtrip_state) ≠ ObsUndefined.
Proof.
  assert (H1 : wf_edgelist roundtrip_state roundtrip_handle 3 1) by by_computation.
  split; [assumption|].
  exact (getter_after_getters roundtrip_state roundtrip_handle 3 1
           [EdgeOffsets; EdgeWeights; EdgeWeights] Sources H1).
Defined.

(** ** When an accessor is defined *)

(** X7. An accessor returns exactly when its handle points to a live
    container and the field it reads is a live array or, for an optional
    field only, null: the accessors of the sources, of the destinations
    and of the offsets have no null test, and on a container whose field
    is null their behaviour is undefined. Whenever an accessor returns,
    in any state, it returns [NULL] exactly when its field is null, and
    then it has changed nothing. *)
Theorem getter_defined_iff st h f :
  ((∃ v st', getter f h st = Done v st') ↔
   ∃ e, deref st h = Some (OEdgelist e) ∧
        ((is_optional f = true ∧ field_ptr f e = nullptr) ∨
         ∃ a, deref st (field_ptr f e) = Some (OArray a))) ∧
  (∀ v st' e,
     getter f h st = Done v st' → deref st h = Some (OEdgelist e) →
     (v = NULL ↔ field_ptr f e = nullptr) ∧
     (v = NULL → is_optional f = true ∧ st' = st)).
Proof.
  rewrite getter_unfold.
  destruct (deref st h) as [[a0|v0|e]|] eqn:Hh.
  1, 2, 4: split; [split; [by intros (? & ? & ?)|by intros (? & ? & _)]|done].
  destruct (decide (field_ptr f e = nullptr)) as [Hp|Hp].
  - rewrite (bool_decide_eq_true_2 _ Hp), andb_true_r.
    destruct (is_optional f) eqn:Hopt.
    + split.
      * split; [|by eexists _, _]. intros _. exists e. split; [done|]. by left.
      * intros v st' e' [= <- <-] [= <-]. by repeat split.
    + unfold array_view. rewrite Hp, deref_nullptr. split; [|done].
      split; [by intros (? & ? & ?)|].
      intros (e' & [= <-] & [[? _]|(a & Ha)]); [done|].
      by rewrite Hp, deref_nullptr in Ha.
  - rewrite (bool_decide_eq_false_2 _ Hp), andb_false_r.
    destruct (deref st (field_ptr f e)) as [[a| |]|] eqn:Ha.
    + rewrite (array_view_live _ _ _ Ha). split.
      * split; [|by eexists _, _]. intros _. exists e. split; [done|]. right.
        by exists a.
      * intros v st' e' [= <- <-] [= <-].
        pose proof (fresh_ptr_nonnull (host st)) as Hv. unfold nullptr in Hv.
        split; [by split|done].
    + unfold array_view. rewrite Ha. split; [|done].
      split; [by intros (? & ? & ?)|].
      intros (e' & [= <-] & [[_ ?]|(a & Ha')]); [done|]. congruence.
    + unfold array_view. rewrite Ha. split; [|done].
      split; [by intros (? & ? & ?)|].
      intros (e' & [= <-] & [[_ ?]|(a & Ha')]); [done|]. congruence.
    + unfold array_view. rewrite Ha. split; [|done].
      split; [by intros (? & ? & ?)|].
      intros (e' & [= <-] & [[_ ?]|(a & Ha')]); [done|]. congruence.
Qed.

(** ** Counting allocations *)

Lemma size_released {V} (ks : list Z) : ∀ m m' : gmap Z V,
  NoDup ks → (∀ k, k ∈ ks → is_Some (m !! k)) →
  (∀ q, m' !! q = if decide (q ∈ ks) then None else m !! q) →
  size m = (size m' + length ks)%nat.
Proof.
  induction ks as [|k ks IH]; intros m m' Hnd Hall Hm'.
  { replace m' with m; [simpl; lia|].
    apply map_eq. intros q. rewrite Hm'. symmetry.
    apply decide_False, not_elem_of_nil. }
  apply NoDup_cons in Hnd as [Hk Hnd].
  destruct (Hall k) as [x Hx]; [by left|].
  rewrite <- (insert_delete_id m k x Hx).
  rewrite map_size_insert_None by apply lookup_delete_eq.
  rewrite (IH (delete k m) m' Hnd); [simpl; lia| |].
  - intros k' Hk'. rewrite lookup_delete_ne by (by intros ->). apply Hall. by right.
  - intros q. rewrite Hm'. destruct (decide (q = k)) as [->|Hq].
    + by rewrite if_elem_of_cons_eq, lookup_delete_eq, decide_False.
    + by rewrite if_elem_of_cons_ne, lookup_delete_ne.
Qed.

Lemma owned_buffers_length st e N M :
  wf_container st e N M → length (owned_buffers st e) = length (owned e).
Proof.
  intros Hwf. unfold owned_buffers, owned. rewrite fields_of_all.
  induction all_fields as [|f fs IH]; [done|].
  rewrite fmap_cons, omap_buffer_of_cons, filter_cons.
  destruct (wf_field st e N M f Hwf) as [[_ Hnull]|Hok].
  - rewrite Hnull, buffer_of_nullptr, decide_False by (by intros ?). done.
  - apply array_ok_live in Hok as (a & b & [Hp Ha]%deref_Some & _).
    rewrite (buffer_of_live _ _ _ Hp Ha), decide_True by done. simpl. by rewrite IH.
Qed.

(** X8. On a well-formed result, [cugraph_edgelist_free] returns one
    host allocation for the container and one for each non-null field,
    and one device buffer for each non-null field: the numbers of live
    host objects and of live device buffers go down by exactly that
    much. *)
Theorem free_allocation_count st h N M :
  wf_edgelist st h N M →
  ∃ e st',
    deref st h = Some (OEdgelist e) ∧
    cugraph_edgelist_free h st = Done () st' ∧
    size (host st) = (size (host st') + 1 + length (owned e))%nat ∧
    size (device st) = (size (device st') + length (owned e))%nat.
Proof.
  intros (e & Hh & Hwf)%wf_edgelist_live.
  destruct (free_spec st h e N M Hh Hwf) as (st' & Hfree & Hho & Hde & _).
  exists e, st'. split; [done|]. split; [done|].
  pose proof Hh as [_ Hh']%deref_Some. split.
  - rewrite (size_released (h :: owned e) (host st) (host st')); [simpl; lia| |..|done].
    + apply NoDup_cons. split; [|apply Hwf].
      intros Hin. destruct (wf_field_array _ _ _ _ _ Hwf Hin) as (a & Ha). congruence.
    + intros k [->|Hin]%elem_of_cons; [by eexists|].
      destruct (wf_field_array _ _ _ _ _ Hwf Hin) as (a & Ha). by eexists.
  - rewrite <- (owned_buffers_length _ _ _ _ Hwf).
    apply size_released; [apply Hwf| |done].
    intros d (p & Hp & Hb)%list_elem_of_omap.
    rewrite fields_of_all in Hp. apply list_elem_of_fmap in Hp as (f & -> & _).
    destruct (wf_field st e N M f Hwf) as [[_ Hnull]|Hok].
    + by rewrite Hnull, buffer_of_nullptr in Hb.
    + apply array_ok_live in Hok as (a & b & [Hp0 Ha]%deref_Some & Hdb & _).
      rewrite (buffer_of_live _ _ _ Hp0 Ha) in Hb. injection Hb as <-. by eexists.
Qed.

Lemma free_allocation_count_witness :
  wf_edgelist roundtrip_state roundtrip_handle 3 1 ∧
  ∃ e st',
    deref roundtrip_state roundtrip_handle = Some (OEdgelist e) ∧
    cugraph_edgelist_free roundtrip_handle roundtrip_state = Done () st' ∧
    size (host roundtrip_state) = (size (host st') + 1 + length (owned e))%nat ∧
    size (device roundtrip_state) = (size (device st') + length (owned e))%nat.
Proof.
  assert (H1 : wf_edgelist roundtrip_state roundtrip_handle 3 1) by by_computation.
  split; [assumption|].
  exact (free_allocation_count roundtrip_state roundtrip_handle 3 1 H1).
Defined.

(** ** Freeing two results *)

Lemma Forall_not_elem_of_sym (l k : list Z) :
  Forall (λ x, x ∉ k) l → Forall (λ y, y ∉ l) k.
Proof.
  rewrite !Forall_forall. intros H y Hy Hl. by apply (H y Hl).
Qed.

(** X9. Two well-formed results that share no array and no buffer can be
    freed in either order: both orders return, and they leave the same
    state. *)
Theorem free_commutes st h1 h2 N1 M1 N2 M2 :
  wf_edgelist st h1 N1 M1 → wf_edgelist st h2 N2 M2 → separate st h1 h2 →
  ∃ st',
    (cugraph_edgelist_free h1 ;; cugraph_edgelist_free h2) st = Done () st' ∧
    (cugraph_edgelist_free h2 ;; cugraph_edgelist_free h1) st = Done () st' ∧
    invalid_handle st' h1 ∧ invalid_handle st' h2.
Proof.
  intros (e1 & Hh1 & Hwf1)%wf_edgelist_live (e2 & Hh2 & Hwf2)%wf_edgelist_live Hsep.
  unfold separate in Hsep. rewrite Hh1, Hh2 in Hsep. destruct Hsep as [Hsp Hsd].
  pose proof (Forall_not_elem_of_sym _ _ Hsp) as Hsp'.
  pose proof (Forall_not_elem_of_sym _ _ Hsd) as Hsd'.
  destruct (free_frame_other st h1 h2 e1 e2 N1 M1 N2 M2 Hh1 Hwf1 Hh2 Hwf2 Hsp Hsd)
    as (st1 & Hfree1 & (Hho1 & Hde1 & Hc1) & Hh2k & _ & Hwf2k & Hob2).
  destruct (free_frame_other st h2 h1 e2 e1 N2 M2 N1 M1 Hh2 Hwf2 Hh1 Hwf1 Hsp' Hsd')
    as (st2 & Hfree2 & (Hho2 & Hde2 & Hc2) & Hh1k & _ & Hwf1k & Hob1).
  destruct (free_spec st1 h2 e2 N2 M2 Hh2k Hwf2k) as (st12 & Hfree12 & Hho12 & Hde12 & Hc12).
  destruct (free_spec st2 h1 e1 N1 M1 Hh1k Hwf1k) as (st21 & Hfree21 & Hho21 & Hde21 & Hc21).
  rewrite Hob2 in Hde12. rewrite Hob1 in Hde21.
  assert (Heq : st21 = st12).
  { destruct st12 as [ho12 de12 c12], st21 as [ho21 de21 c21]. simpl in *.
    f_equal; [| |congruence].
    - apply map_eq. intros q. rewrite Hho21, Hho12, Hho2, Hho1.
      by repeat case_decide.
    - apply map_eq. intros d. rewrite Hde21, Hde12, Hde2, Hde1.
      by repeat case_decide. }
  exists st12. unfold bind. rewrite Hfree1, Hfree12, Hfree2, Hfree21, Heq.
  split; [done|]. split; [done|]. split.
  - unfold invalid_handle, deref. case_decide; [done|].
    by rewrite Hho12, Hho1, if_elem_of_cons_eq; case_decide.
  - unfold invalid_handle, deref. case_decide; [done|].
    by rewrite Hho12, if_elem_of_cons_eq.
Qed.

Lemma free_commutes_witness :
  wf_edgelist two_results_state roundtrip_handle 3 1 ∧
  wf_edgelist two_results_state second_handle 0 1 ∧
  separate two_results_state roundtrip_handle second_handle ∧
  ∃ st',
    (cugraph_edgelist_free roundtrip_handle ;; cugraph_edgelist_free second_handle)
      two_results_state = Done () st' ∧
    (cugraph_edgelist_free second_handle ;; cugraph_edgelist_free roundtrip_handle)
      two_results_state = Done () st' ∧
    invalid_handle st' roundtrip_handle ∧ invalid_handle st' second_handle.
Proof.
  assert (H1 : wf_edgelist two_results_state roundtrip_handle 3 1) by by_computation.
  assert (H2 : wf_edgelist two_results_state second_handle 0 1) by by_computation.
  assert (H3 : separate two_results_state roundtrip_handle second_handle)
    by by_computation.
  repeat (split; [assumption|]).
  exact (free_commutes two_results_state roundtrip_handle second_handle
           3 1 0 1 H1 H2 H3).
Defined.
